(** * Pioneer: the Lua binding layer (PiLuaAPI.cpp) and ShipType.h

  A shallow embedding of the script-facing object wrapper, the userdata
  serializer and the equipment set, together with the properties the
  design document states about them.

  Conventions.
  - C [int] values are integers in [INT_MIN, INT_MAX] held in [Z];
    [size_t] is an unsigned 64-bit quantity.
  - Pointers are [option addr]: [None] is the null pointer, [Some a] an
    address that may or may not be allocated in the heap it points into.
  - [std::string] is [string]; the strings that reach these entry points
    come from Lua as C strings, and [c_str()] is the identity on them.
  - [double] is an IEEE-754 binary64 value ([spec_float] at precision 53).
  - Operations that can fault return an [option]: a dereference of an
    unallocated address, a null dereference and a failed [assert] are
    [None].
  - The order in which the arguments of one call are evaluated is the
    compiler's choice: it is a parameter ([arg_order]). *)

From Stdlib Require Import ZArith List Ascii String DecimalString Lia.
From Stdlib Require Import Floats.SpecFloat.
From stdpp Require Import gmap strings list.

Local Open Scope string_scope.
Local Open Scope Z_scope.

(** ** Machine integers *)

Module CInt.

Definition INT_MIN : Z := - 2 ^ 31.
Definition INT_MAX : Z := 2 ^ 31 - 1.
Definition LONG_MIN : Z := - 2 ^ 63.
Definition LONG_MAX : Z := 2 ^ 63 - 1.

Definition in_int (z : Z) : Prop := INT_MIN <= z <= INT_MAX.

(** Conversion to [int] of a value that may lie outside its range. *)
Definition to_int (z : Z) : Z := (z + 2 ^ 31) mod 2 ^ 32 - 2 ^ 31.

(** Conversion of an [int] to [size_t]. *)
Definition to_size_t (z : Z) : Z := z mod 2 ^ 64.

(** [strtol] saturates at the ends of [long]. *)
Definition clamp_long (z : Z) : Z := Z.max LONG_MIN (Z.min LONG_MAX z).

End CInt.

(** ** The C library pieces the serializer calls: [%d] and [atoi] *)

Module CStr.

Definition zero_char : ascii := "0"%char.
Definition newline : ascii := "010"%char.

Definition nl : string := String newline EmptyString.

(** The digit character of [d], for [0 <= d <= 9]. *)
Definition digit_char (d : Z) : ascii :=
  ascii_of_nat (48 + Z.to_nat d).

Definition isdigit (c : ascii) : bool :=
  let n := Z.of_nat (nat_of_ascii c) in (48 <=? n) && (n <=? 57).

Definition digit_val (c : ascii) : Z := Z.of_nat (nat_of_ascii c) - 48.

(** [isspace] in the C locale: space, \t, \n, \v, \f, \r. *)
Definition isspace (c : ascii) : bool :=
  let n := Z.of_nat (nat_of_ascii c) in (n =? 32) || ((9 <=? n) && (n <=? 13)).

(** The decimal digits of a non-negative [n], most significant first,
    prepended to [acc]. Ten rounds cover every 32-bit magnitude. *)
Fixpoint digits_aux (fuel : nat) (n : Z) (acc : string) : string :=
  match fuel with
  | O => acc
  | S fuel' =>
      let acc' := String (digit_char (n mod 10)) acc in
      if n / 10 =? 0 then acc' else digits_aux fuel' (n / 10) acc'
  end.

Definition digits (n : Z) : string := digits_aux 10 n EmptyString.

(** What [%d] prints for the [int] [n]. *)
Definition format_d (n : Z) : string :=
  if n <? 0 then String "-"%char (digits (- n)) else digits n.

(** [snprintf(buf, size, ...)] keeps at most [size - 1] characters. *)
Definition snprintf (size : nat) (s : string) : string :=
  substring 0 (size - 1) s.

Fixpoint skip_space (s : string) : string :=
  match s with
  | String c s' => if isspace c then skip_space s' else s
  | EmptyString => s
  end.

(** The value of the longest prefix of digits, accumulated left to right. *)
Fixpoint parse_digits (acc : Z) (s : string) : Z :=
  match s with
  | String c s' =>
      if isdigit c then parse_digits (acc * 10 + digit_val c) s' else acc
  | EmptyString => acc
  end.

Definition strtol10 (s : string) : Z :=
  match skip_space s with
  | String c s' =>
      if Ascii.eqb c "-"%char then CInt.clamp_long (- parse_digits 0 s')
      else if Ascii.eqb c "+"%char then CInt.clamp_long (parse_digits 0 s')
      else CInt.clamp_long (parse_digits 0 (String c s'))
  | EmptyString => 0
  end.

(** [atoi(s)] is [(int) strtol(s, NULL, 10)]. *)
Definition atoi (s : string) : Z := CInt.to_int (strtol10 s).

(** [std::string::substr(pos, len)] for [pos] within the string, and
    [substr(pos)], which the callers below guard by a prefix test. *)
Definition substr (pos len : nat) (s : string) : string := substring pos len s.
Definition substr_from (pos : nat) (s : string) : string :=
  substring pos (String.length s - pos) s.

End CStr.

(** ** EquipType.h, as far as ShipType.h relies on it

  The header is included by ShipType.h but is not among these files: the
  enumeration [Equip::Type] with its member [NONE], the enumeration
  [Equip::Slot], and the table [EquipType::types[e].slot] are taken as
  parameters. *)

Class EquipDecl := {
  Equip_Type : Type;
  Equip_Slot : Type;
  Equip_Type_eq :: EqDecision Equip_Type;
  Equip_Slot_eq :: EqDecision Equip_Slot;
  NONE : Equip_Type;
  EquipType_slot : Equip_Type -> Equip_Slot
}.

Module EquipSet.
Section Defs.
Context `{EquipDecl}.

(** [equip] is the array of slot vectors; [onChange] counts the
    emissions of the change signal. *)
Record t := mk {
  equip : Equip_Slot -> list Equip_Type;
  onChange : nat
}.

Definition emit (es : t) : t := mk (equip es) (S (onChange es)).

Definition set_vec (s : Equip_Slot) (v : list Equip_Type) (es : t) : t :=
  mk (fun s' => if decide (s' = s) then v else equip es s') (onChange es).

Definition GetSlotSize (es : t) (s : Equip_Slot) : Z :=
  CInt.to_int (Z.of_nat (length (equip es s))).

Definition Get (es : t) (s : Equip_Slot) : Equip_Type :=
  match equip es s with
  | [] => NONE
  | e :: _ => e
  end.

(** The loop of [Add] over the slots from index [i] on: [v] is the part
    of the vector not yet visited, [numDone] the counter on entry. It
    returns the rewritten part and the counter at loop exit. *)
Fixpoint Add_loop (e : Equip_Type) (num numDone : Z) (v : list Equip_Type)
  : list Equip_Type * Z :=
  match v with
  | [] => ([], numDone)
  | x :: v' =>
      if numDone =? num then (v, numDone)
      else if decide (x = NONE) then
        let '(r, n) := Add_loop e num (CInt.to_int (numDone + 1)) v' in
        (e :: r, n)
      else
        let '(r, n) := Add_loop e num numDone v' in
        (x :: r, n)
  end.

Definition Add (e : Equip_Type) (num : Z) (es : t) : bool * t :=
  let s := EquipType_slot e in
  let '(v', numDone) := Add_loop e num 0 (equip es s) in
  let es1 := set_vec s v' es in
  let es2 := if numDone =? 0 then es1 else emit es1 in
  (numDone =? num, es2).

Definition Add1 (e : Equip_Type) (es : t) : bool * t := Add e 1 es.

Fixpoint Count_loop (e : Equip_Type) (num : Z) (v : list Equip_Type) : Z :=
  match v with
  | [] => num
  | x :: v' =>
      Count_loop e (if decide (x = e) then CInt.to_int (num + 1) else num) v'
  end.

Definition Count (es : t) (s : Equip_Slot) (e : Equip_Type) : Z :=
  Count_loop e 0 (equip es s).

Definition FreeSpace (es : t) (s : Equip_Slot) : Z :=
  Count_loop NONE 0 (equip es s).

(** [Get(s, idx)] and [Set(s, idx, e)] index the vector unchecked. *)
Definition Get_at (es : t) (s : Equip_Slot) (idx : nat) : option Equip_Type :=
  equip es s !! idx.

Definition Set_at (s : Equip_Slot) (idx : nat) (e : Equip_Type) (es : t)
  : option t :=
  if decide (idx < length (equip es s))%nat
  then Some (emit (set_vec s (<[idx := e]> (equip es s)) es))
  else None.

Fixpoint Remove_loop (e : Equip_Type) (num numDone : Z) (v : list Equip_Type)
  : list Equip_Type * Z :=
  match v with
  | [] => ([], numDone)
  | x :: v' =>
      if num =? 0 then (v, numDone)
      else if decide (x = e) then
        let '(r, n) :=
          Remove_loop e (CInt.to_int (num - 1)) (CInt.to_int (numDone + 1)) v' in
        (NONE :: r, n)
      else
        let '(r, n) := Remove_loop e num numDone v' in
        (x :: r, n)
  end.

(** [Remove] returns the number removed. *)
Definition Remove (e : Equip_Type) (num : Z) (es : t) : Z * t :=
  let s := EquipType_slot e in
  let '(v', numDone) := Remove_loop e num 0 (equip es s) in
  (numDone, emit (set_vec s v' es)).

(** *** Notions used to state what [Add] does *)

(** The number of slots of [v] that hold [e]. *)
Definition occ (e : Equip_Type) (v : list Equip_Type) : nat :=
  length (filter (λ x, x = e) v).

(** The number of empty slots below index [i], counted as [FreeSpace]
    counts. *)
Definition empty_before (v : list Equip_Type) (i : nat) : Z :=
  Count_loop NONE 0 (take i v).

(** The indices [Add] writes to when asked for [num] items: the empty
    slots with fewer than [num] empty slots below them. *)
Definition filled (num : Z) (v : list Equip_Type) : list nat :=
  filter (λ i, v !! i = Some NONE /\ empty_before v i < num) (seq 0 (length v)).

End Defs.
End EquipSet.

(** ** IEEE doubles and vectors *)

Abbreviation double := spec_float.

Module Double.

Definition prec : Z := 53.
Definition emax : Z := 1024.

Definition zero : double := S754_zero false.

(** Conversion of an integer to [double], rounding to nearest even. *)
Definition of_Z (z : Z) : double := binary_normalize prec emax z 0 false.

Definition mul : double -> double -> double := SFmul prec emax.
Definition add : double -> double -> double := SFadd prec emax.
Definition sub : double -> double -> double := SFsub prec emax.
Definition leb : double -> double -> bool := SFleb.
Definition ltb : double -> double -> bool := SFltb.

(** The literals [0.01], [100.0], [10000.0], [1.0] and [-1.0]. *)
Definition lit_0_01 : double := S754_finite false 5764607523034235 (-59).
Definition lit_100 : double := of_Z 100.
Definition lit_10000 : double := of_Z 10000.
Definition lit_1 : double := of_Z 1.
Definition lit_m1 : double := of_Z (-1).

(** The cast [(Sint64) x]: truncation toward zero; a value that does not
    fit (or is not a number) has no defined result. *)
Definition to_Sint64 (x : double) : option Z :=
  match x with
  | S754_zero _ => Some 0
  | S754_finite s m e =>
      let mag := if 0 <=? e then Z.pos m * 2 ^ e else Z.pos m / 2 ^ (- e) in
      let v := if s then - mag else mag in
      if (- 2 ^ 63 <=? v) && (v <=? 2 ^ 63 - 1) then Some v else None
  | _ => None
  end.

End Double.

Record vector3d := Vec3 { vx : double; vy : double; vz : double }.

Definition vector3d_add (a b : vector3d) : vector3d :=
  Vec3 (Double.add (vx a) (vx b)) (Double.add (vy a) (vy b))
       (Double.add (vz a) (vz b)).

Definition vector3d_scale (k : double) (a : vector3d) : vector3d :=
  Vec3 (Double.mul k (vx a)) (Double.mul k (vy a)) (Double.mul k (vz a)).

(** ** The simulation side

  Object.h, Body.h, Ship.h, SpaceStation.h, StarSystem.h, Serializer.h,
  Space.h and Pi.h are included by PiLuaAPI.cpp but are not among these
  files. The types and functions below that come from them are the
  parameters of the development. *)

Abbreviation addr := nat.

(** [Object::Type]: the enumerators the binding layer names, and the rest. *)
Inductive Object_Type :=
  | BODY
  | SHIP
  | SPACESTATION
  | OTHER_TYPE (n : nat).

Record BBAdvert := mkBBAdvert {
  ad_luaMod : string;
  ad_luaRef : Z;
  ad_description : string
}.

Record SysLoc := mkSysLoc {
  sectorX : Z;
  sectorY : Z;
  systemIdx : Z
}.

(** The order in which the compiler evaluates the three arguments of a
    call [f(x, y, z)], first to last; C++ leaves it unspecified. [XYZ]
    is left to right, [ZYX] right to left. *)
Inductive ArgOrder := XYZ | XZY | YXZ | YZX | ZXY | ZYX.

(** The arguments [x], [y] and [z] of a call whose argument expressions
    gave [d1], [d2] and [d3], in the order they were evaluated. *)
Definition assign3 {A : Type} (o : ArgOrder) (d1 d2 d3 : A) : A * A * A :=
  match o with
  | XYZ => (d1, d2, d3)
  | XZY => (d1, d3, d2)
  | YXZ => (d2, d1, d3)
  | YZX => (d3, d1, d2)
  | ZXY => (d2, d3, d1)
  | ZYX => (d3, d2, d1)
  end.

Class SimTypes := {
  (** [SBody], the static description of a system body. *)
  SBody : Type;
  (** [SBodyPath], the path of an [SBody] in the universe. *)
  SBodyPath : Type;
  (** The bulletin board of a [SpaceStation]. *)
  Board : Type;
  BBAddAdvert : BBAdvert -> Board -> Board;
  BBRemoveAdvert : string -> Z -> Board -> Board;
  (** [StarSystem::GetPathOf] on [Pi::currentSystem]. *)
  GetPathOf : SBody -> SBodyPath;
  (** [x->Serialize(wr); wr.GetData()] and [X::Unserialize(Reader(s), p)]
      for [SBodyPath] and [SysLoc]. *)
  SBodyPath_Serialize : SBodyPath -> string;
  SBodyPath_Unserialize : string -> SBodyPath;
  SysLoc_Serialize : SysLoc -> string;
  SysLoc_Unserialize : string -> SysLoc;
  (** The state of [Pi::rng] and its [Double(min, max)]. *)
  Rng : Type;
  rng_Double : double -> double -> Rng -> double * Rng;
  HYPERCLOUD_DURATION : double;
  (** The evaluation order of the compiler that built the program. *)
  arg_order : ArgOrder
}.

Section Simulation.
Context `{EquipDecl} `{SimTypes}.

(** A simulation object, as the binding layer sees it: the virtual
    [IsType], the [onDelete] signal (the wrappers whose [OnDelete] slot
    is connected, in connection order) and the members read or written
    through the accessors of [Body], [Ship] and [SpaceStation]. *)
Record Object := mkObject {
  IsType : Object_Type -> bool;
  onDelete : list addr;
  label : string;
  money : Z;
  dockedWith : option addr;
  sbody : option SBody;
  board : Board;
  frame : option addr;
  position : vector3d;
  velocity : vector3d
}.

Definition set_onDelete (l : list addr) (o : Object) : Object :=
  mkObject (IsType o) l (label o) (money o) (dockedWith o) (sbody o)
           (board o) (frame o) (position o) (velocity o).

Definition SetMoney_obj (m : Z) (o : Object) : Object :=
  mkObject (IsType o) (onDelete o) (label o) m (dockedWith o) (sbody o)
           (board o) (frame o) (position o) (velocity o).

Definition set_board (b : Board) (o : Object) : Object :=
  mkObject (IsType o) (onDelete o) (label o) (money o) (dockedWith o)
           (sbody o) b (frame o) (position o) (velocity o).

(** [SetFrame], [SetPosition] and [SetVelocity] in one step. *)
Definition place (f : option addr) (p v : vector3d) (o : Object) : Object :=
  mkObject (IsType o) (onDelete o) (label o) (money o) (dockedWith o)
           (sbody o) (board o) f p v.

(** ** ShipType *)

Record GunMount := mkGunMount { gm_pos : vector3d; gm_dir : vector3d }.

Record ShipType := mkShipType {
  st_name : string;
  st_lmrModelName : string;
  st_linThrust : list double;
  st_angThrust : double;
  st_gunMount : list GunMount;
  st_equipSlotCapacity : Equip_Slot -> Z;
  st_capacity : Z;
  st_hullMass : Z;
  st_baseprice : Z;
  st_hyperdrive : Equip_Type
}.

(** [m_obj] is the wrapped pointer. [m_delCon] is the connection to the
    slot in the wrapped object's [onDelete]: [Some a] while the slot is
    in the signal of the object at [a], [None] once disconnected. *)
Record ObjectWrapper := mkWrapper {
  m_obj : option addr;
  m_delCon : option addr
}.

(** [Serializer::LookupBody], both overloads. *)
Record BodyIndex := mkBodyIndex {
  index_of : addr -> Z;
  body_at : Z -> option addr
}.

Record World := mkWorld {
  objects : gmap addr Object;
  wrappers : gmap addr ObjectWrapper;
  bodies : list addr;
  player : option addr;
  gameTime : double;
  systemBeingBuilt : bool;
  rng : Rng;
  shipTypes : gmap string ShipType;
  bodyIndex : BodyIndex
}.

Definition set_objects (m : gmap addr Object) (w : World) : World :=
  mkWorld m (wrappers w) (bodies w) (player w) (gameTime w)
          (systemBeingBuilt w) (rng w) (shipTypes w) (bodyIndex w).

Definition set_wrappers (m : gmap addr ObjectWrapper) (w : World) : World :=
  mkWorld (objects w) m (bodies w) (player w) (gameTime w)
          (systemBeingBuilt w) (rng w) (shipTypes w) (bodyIndex w).

Definition set_bodies (l : list addr) (w : World) : World :=
  mkWorld (objects w) (wrappers w) l (player w) (gameTime w)
          (systemBeingBuilt w) (rng w) (shipTypes w) (bodyIndex w).

Definition set_rng (r : Rng) (w : World) : World :=
  mkWorld (objects w) (wrappers w) (bodies w) (player w) (gameTime w)
          (systemBeingBuilt w) r (shipTypes w) (bodyIndex w).

(** [ShipType::Get]: the entry of the table, or the null pointer. *)
Definition ShipType_Get (types : gmap string ShipType) (name : string)
  : option ShipType := types !! name.

End Simulation.

(** ** ObjectWrapper *)

Section Wrapper.
Context `{EquipDecl} `{SimTypes}.

(** [o->onDelete.connect(slot of the wrapper at h)]. *)
Definition connect (h a : addr) (w : World) : option World :=
  ob ← objects w !! a;
  Some (set_objects (<[a := set_onDelete (onDelete ob ++ [h]) ob]> (objects w)) w).

(** [ObjectWrapper::ObjectWrapper(Object *o)], building the wrapper at
    the address [h]: [m_obj(o)], then [o->onDelete.connect(...)]. *)
Definition ObjectWrapper_ctor (h : addr) (o : option addr) (w : World)
  : option World :=
  a ← o;
  w1 ← connect h a w;
  Some (set_wrappers (<[h := mkWrapper o (Some a)]> (wrappers w1)) w1).

(** [m_delCon.disconnect()] of the wrapper at [h]: the slot leaves the
    signal it is still in; on an empty connection nothing happens. *)
Definition disconnect (h : addr) (w : World) : option World :=
  wr ← wrappers w !! h;
  match m_delCon wr with
  | None => Some w
  | Some a =>
      let objs :=
        match objects w !! a with
        | Some ob =>
            <[a := set_onDelete (filter (λ h', h' ≠ h) (onDelete ob)) ob]> (objects w)
        | None => objects w
        end in
      Some (set_wrappers (<[h := mkWrapper (m_obj wr) None]> (wrappers w))
              (set_objects objs w))
  end.

(** [ObjectWrapper::OnDelete]. *)
Definition OnDelete (h : addr) (w : World) : option World :=
  wr ← wrappers w !! h;
  disconnect h (set_wrappers (<[h := mkWrapper None (m_delCon wr)]> (wrappers w)) w).

(** [ObjectWrapper::~ObjectWrapper], followed by the release of [h]. *)
Definition ObjectWrapper_dtor (h : addr) (w : World) : option World :=
  w1 ← disconnect h w;
  Some (set_wrappers (delete h (wrappers w1)) w1).

(** [ObjectWrapper::Is]. *)
Definition Is (t : Object_Type) (h : addr) (w : World) : option bool :=
  wr ← wrappers w !! h;
  match m_obj wr with
  | None => Some false
  | Some a => ob ← objects w !! a; Some (IsType ob t)
  end.

(** The object behind [static_cast<...>(m_obj)->]. *)
Definition deref (h : addr) (w : World) : option (addr * Object) :=
  wr ← wrappers w !! h;
  a ← m_obj wr;
  ob ← objects w !! a;
  Some (a, ob).

Definition IsBody (h : addr) (w : World) : option bool := Is BODY h w.

Definition GetMoney (h : addr) (w : World) : option double :=
  b ← Is SHIP h w;
  if b : bool then
    '(_, s) ← deref h w;
    Some (Double.mul Double.lit_0_01 (Double.of_Z (money s)))
  else Some Double.zero.

Definition SetMoney (h : addr) (m : double) (w : World) : option World :=
  b ← Is SHIP h w;
  if b : bool then
    '(a, s) ← deref h w;
    c ← Double.to_Sint64 (Double.mul m Double.lit_100);
    Some (set_objects (<[a := SetMoney_obj c s]> (objects w)) w)
  else Some w.

Definition GetLabel (h : addr) (w : World) : option string :=
  b ← Is BODY h w;
  if b : bool then '(_, o) ← deref h w; Some (label o)
  else Some EmptyString.

Definition SpaceStationAddAdvert (h : addr) (luaMod : string) (luaRef : Z)
    (description : string) (w : World) : option World :=
  b ← Is SPACESTATION h w;
  if b : bool then
    '(a, s) ← deref h w;
    let s' := set_board (BBAddAdvert (mkBBAdvert luaMod luaRef description) (board s)) s in
    Some (set_objects (<[a := s']> (objects w)) w)
  else Some w.

Definition SpaceStationRemoveAdvert (h : addr) (luaMod : string) (luaRef : Z)
    (w : World) : option World :=
  b ← Is SPACESTATION h w;
  if b : bool then
    '(a, s) ← deref h w;
    let s' := set_board (BBRemoveAdvert luaMod luaRef (board s)) s in
    Some (set_objects (<[a := s']> (objects w)) w)
  else Some w.

(** [GetSBody]: the new path, or the null pointer. *)
Definition GetSBody (h : addr) (w : World) : option (option SBodyPath) :=
  b ← Is BODY h w;
  if b : bool then
    '(_, o) ← deref h w;
    match sbody o with
    | Some sb => Some (Some (GetPathOf sb))
    | None => Some None
    end
  else Some None.

(** [new ObjectWrapper(o)]: construction at an unused address. *)
Definition new_ObjectWrapper (o : option addr) (w : World)
  : option (addr * World) :=
  let h := fresh (dom (wrappers w)) in
  w' ← ObjectWrapper_ctor h o w;
  Some (h, w').

(** [GetDockedWith]: the address of a new wrapper, or the null pointer. *)
Definition GetDockedWith (h : addr) (w : World) : option (option addr * World) :=
  b ← Is SHIP h w;
  if b : bool then
    '(_, s) ← deref h w;
    match dockedWith s with
    | Some st => '(h', w') ← new_ObjectWrapper (Some st) w; Some (Some h', w')
    | None => Some (None, w)
    end
  else Some (None, w).

(** ** Destruction of a simulation object *)

(** [sigc::signal::emit] calls every connected slot synchronously, in
    connection order; a slot that has left the signal meanwhile is not
    called. [slots] is the list of slots as it was when the emission
    started. *)
Fixpoint emit_slots (a : addr) (slots : list addr) (w : World) : option World :=
  match slots with
  | [] => Some w
  | h :: rest =>
      match objects w !! a with
      | Some ob =>
          if bool_decide (h ∈ onDelete ob)
          then w' ← OnDelete h w; emit_slots a rest w'
          else emit_slots a rest w
      | None => None
      end
  end.

(** [onDelete.emit()] on the object at [a]. *)
Definition emit_onDelete (a : addr) (w : World) : option World :=
  ob ← objects w !! a;
  emit_slots a (onDelete ob) w.

(** Modelled from the spec: the destruction of the object at [a]; the
    code that emits [onDelete] is not among these files. Following section
    4.1 of the design document, the notification runs once, immediately
    before the object's resources are released. *)
Definition Object_delete (a : addr) (w : World) : option World :=
  w1 ← emit_onDelete a w;
  Some (set_objects (delete a (objects w1)) w1).

(** ** Lifetime events

    Everything that can happen to wrappers and objects: the script side
    builds a wrapper at a free address and later collects it; the
    simulation creates an object (with no slot connected), rewrites its
    members (the signal apart) and destroys it. *)

Inductive event :=
  | Wrap (h a : addr)
  | Collect (h : addr)
  | Create (a : addr) (ob : Object)
  | Mutate (a : addr) (ob : Object)
  | Destroy (a : addr).

Definition exec (e : event) (w : World) : option World :=
  match e with
  | Wrap h a =>
      match wrappers w !! h with
      | None => ObjectWrapper_ctor h (Some a) w
      | Some _ => None
      end
  | Collect h => ObjectWrapper_dtor h w
  | Create a ob =>
      match objects w !! a with
      | None => Some (set_objects (<[a := set_onDelete [] ob]> (objects w)) w)
      | Some _ => None
      end
  | Mutate a ob =>
      old ← objects w !! a;
      Some (set_objects (<[a := set_onDelete (onDelete old) ob]> (objects w)) w)
  | Destroy a => Object_delete a w
  end.

Fixpoint run (evs : list event) (w : World) : option World :=
  match evs with
  | [] => Some w
  | e :: evs' => w' ← exec e w; run evs' w'
  end.

(** A wrapper reports live when its relation is not the null pointer. *)
Definition attached_to (h a : addr) (w : World) : Prop :=
  exists wr, wrappers w !! h = Some wr /\ m_obj wr = Some a.

Definition detached (h : addr) (w : World) : Prop :=
  exists wr, wrappers w !! h = Some wr /\ m_obj wr = None.

(** ** The invariant of wrappers and signals

    The relation and the connection of a wrapper go together; a connected
    wrapper is in the signal of a live object; every slot of a signal
    belongs to an existing wrapper connected to that signal. *)
Record WF (w : World) : Prop := mkWF {
  wf_rel : forall h wr, wrappers w !! h = Some wr -> m_obj wr = m_delCon wr;
  wf_con : forall h wr a, wrappers w !! h = Some wr -> m_delCon wr = Some a ->
             exists ob, objects w !! a = Some ob /\ h ∈ onDelete ob;
  wf_slot : forall a ob h, objects w !! a = Some ob -> h ∈ onDelete ob ->
             exists wr, wrappers w !! h = Some wr /\ m_delCon wr = Some a
}.

(** The object heap once the slot of the wrapper [wr] at [h] has left
    the signal it was in. *)
Definition unhook (h : addr) (wr : ObjectWrapper) (objs : gmap addr Object)
  : gmap addr Object :=
  match m_delCon wr with
  | Some a =>
      match objs !! a with
      | Some ob => <[a := set_onDelete (filter (λ h', h' ≠ h) (onDelete ob)) ob]> objs
      | None => objs
      end
  | None => objs
  end.

(** The wrapper at [h] after the slots in [slots] of the object at [a]
    have been called. *)
Definition notified (a : addr) (slots : list addr) (h : addr)
    (wr : ObjectWrapper) : ObjectWrapper :=
  if decide (m_delCon wr = Some a /\ h ∈ slots) then mkWrapper None None else wr.

(** A wrapper after the destruction of the object at [a]. *)
Definition orphaned (a : addr) (wr : ObjectWrapper) : ObjectWrapper :=
  if decide (m_delCon wr = Some a) then mkWrapper None None else wr.

(** What one event does to a wrapper that exists and is not collected. *)
Definition after_event (e : event) (wr : ObjectWrapper) : ObjectWrapper :=
  match e with
  | Destroy a => orphaned a wr
  | _ => wr
  end.

End Wrapper.

(** ** The Lua side *)

(** Constructors of the simulation classes the binding layer instantiates
  ([Ship::Ship(type)], [HyperspaceCloud::HyperspaceCloud(ship, due,
  isArrival)]); their definitions are not among these files. *)
Class SimCtors `{EquipDecl} `{SimTypes} := {
  Ship_new : string -> Object;
  HyperspaceCloud_new : addr -> double -> bool -> Object
}.

Section Lua.
Context `{SimCtors}.

(** The classes registered by [RegisterPiLuaAPI]. *)
Inductive Userdata :=
  | UObjectWrapper (h : addr)
  | ULuaChatForm
  | USoundEvent
  | USysLoc (l : SysLoc)
  | USBodyPath (p : SBodyPath).

Inductive LuaValue :=
  | LNil
  | LBoolean (b : bool)
  | LNumber (x : double)
  | LString (s : string)
  | LTable
  | LFunction
  | LUserdata (u : Userdata).

(** How a C function ends: it returns the values it pushed, raises a Lua
    error (here only the argument type error of [luaL_checktype]), or
    calls the engine's [Error(...)] with a message. *)
Inductive LuaRet :=
  | Returns (vs : list LuaValue)
  | LuaTypeError (narg : nat) (expected : string)
  | EngineError (msg : string).

Definition class_name (u : Userdata) : string :=
  match u with
  | UObjectWrapper _ => "ObjectWrapper"
  | ULuaChatForm => "LuaChatForm"
  | USoundEvent => "SoundEvent"
  | USysLoc _ => "SysLoc"
  | USBodyPath _ => "SBodyPath"
  end.

(** [mylua_checkudata(L, 1, name)]: the userdata is of the class
    registered under [name]. *)
Definition mylua_checkudata (u : Userdata) (name : string) : bool :=
  String.eqb (class_name u) name.

Definition tag_ObjectWrapper : string := "ObjectWrapper" ++ CStr.nl.
Definition tag_SBodyPath : string := "SBodyPath" ++ CStr.nl.
Definition tag_SysLoc : string := "SysLoc" ++ CStr.nl.

(** [UserDataSerialize]. The failed [assert] of the first branch is a
    fault. The strings pushed with [lua_pushstring] and [push2lua] reach
    the caller as they are. *)
Definition UserDataSerialize (v : LuaValue) (w : World)
  : option (LuaRet * World) :=
  match v with
  | LUserdata u =>
      if mylua_checkudata u "ObjectWrapper" then
        match u with
        | UObjectWrapper o =>
            b ← IsBody o w;
            if b : bool then
              wr ← wrappers w !! o;
              a ← m_obj wr;
              let buf :=
                CStr.snprintf 128
                  (tag_ObjectWrapper
                   ++ CStr.format_d (index_of (bodyIndex w) a) ++ CStr.nl) in
              Some (Returns [LString buf], w)
            else None
        | _ => None
        end
      else if mylua_checkudata u "SBodyPath" then
        match u with
        | USBodyPath path =>
            Some (Returns [LString (tag_SBodyPath ++ SBodyPath_Serialize path)], w)
        | _ => None
        end
      else if mylua_checkudata u "SysLoc" then
        match u with
        | USysLoc systemid =>
            Some (Returns [LString (tag_SysLoc ++ SysLoc_Serialize systemid)], w)
        | _ => None
        end
      else Some (EngineError "Tried to serialize unknown userdata type.", w)
  | _ => Some (LuaTypeError 1 "userdata", w)
  end.

(** [UserDataUnserialize], on the string pulled from the Lua stack. Its
    last line, [return 0], returns no value. *)
Definition UserDataUnserialize (str : string) (w : World)
  : option (LuaRet * World) :=
  if String.eqb (CStr.substr 0 14 str) tag_ObjectWrapper then
    let idx := CInt.to_size_t (CStr.atoi (CStr.substr_from 14 str)) in
    let b := body_at (bodyIndex w) idx in
    '(h, w') ← new_ObjectWrapper b w;
    Some (Returns [LUserdata (UObjectWrapper h)], w')
  else if String.eqb (CStr.substr 0 10 str) tag_SBodyPath then
    let p := SBodyPath_Unserialize (CStr.substr_from 10 str) in
    Some (Returns [LUserdata (USBodyPath p)], w)
  else if String.eqb (CStr.substr 0 7 str) tag_SysLoc then
    let p := SysLoc_Unserialize (CStr.substr_from 7 str) in
    Some (Returns [LUserdata (USysLoc p)], w)
  else Some (Returns [], w).

(** *** namespace LuaPi *)

Definition GetPlayer (w : World) : option (LuaRet * World) :=
  '(h, w') ← new_ObjectWrapper (player w) w;
  Some (Returns [LUserdata (UObjectWrapper h)], w').

(** [new T(...)] for a simulation object: a fresh address, no slot
    connected to its signal. *)
Definition new_Object (ob : Object) (w : World) : addr * World :=
  let a := fresh (dom (objects w)) in
  (a, set_objects (<[a := set_onDelete [] ob]> (objects w)) w).

(** [Space::AddBody]. *)
Definition AddBody (b : addr) (w : World) : World :=
  set_bodies (bodies w ++ [b]) w.

(** The three draws of [Pi::rng.Double(-1.0, 1.0)]. They are the three
    arguments of one [vector3d] constructor call: the generator is called
    three times, one call after the other, and [arg_order] tells which
    coordinate each result becomes. *)
Definition draw3 (r : Rng) : vector3d * Rng :=
  let '(d1, r1) := rng_Double Double.lit_m1 Double.lit_1 r in
  let '(d2, r2) := rng_Double Double.lit_m1 Double.lit_1 r1 in
  let '(d3, r3) := rng_Double Double.lit_m1 Double.lit_1 r2 in
  let '(x, y, z) := assign3 arg_order d1 d2 d3 in
  (Vec3 x y z, r3).

(** The branches of [SpawnShip] that put the ship in a hyperspace cloud. *)
Definition spawn_in_cloud (type : string) (due : double) (pl : Object)
    (pos : vector3d) (w : World) : option (LuaRet * World) :=
  let '(ship, w1) := new_Object (Ship_new type) w in
  let cloud := place (frame pl) pos (velocity pl)
                 (HyperspaceCloud_new ship due true) in
  let '(c, w2) := new_Object cloud w1 in
  let w3 := AddBody c w2 in
  '(h, w4) ← new_ObjectWrapper (Some ship) w3;
  Some (Returns [LUserdata (UObjectWrapper h)], w4).

Definition SpawnShip (type : string) (due : double) (w : World)
  : option (LuaRet * World) :=
  match ShipType_Get (shipTypes w) type with
  | None => Some (Returns [LNil; LString "Unknown ship type"], w)
  | Some _ =>
      p ← player w;
      pl ← objects w !! p;
      let '(d, r) := draw3 (rng w) in
      let pos := vector3d_add (position pl) (vector3d_scale Double.lit_10000 d) in
      let w0 := set_rng r w in
      if Double.leb due (gameTime w0) then
        if negb (systemBeingBuilt w0) then
          Some (Returns [LNil; LString "Insufficient time to generate ship entry"], w0)
        else if Double.leb due Double.zero
                || Double.ltb due (Double.sub (gameTime w0) HYPERCLOUD_DURATION)
        then
          let ship := place (frame pl) pos (velocity pl) (Ship_new type) in
          let '(s, w1) := new_Object ship w0 in
          let w2 := AddBody s w1 in
          '(h, w3) ← new_ObjectWrapper (Some s) w2;
          Some (Returns [LUserdata (UObjectWrapper h)], w3)
        else spawn_in_cloud type due pl pos w0
      else spawn_in_cloud type due pl pos w0
  end.

(** *** Notions used to state what the serializer does *)

(** The body at [a] is in the serializer's index: it has a non-negative
    [int] id, and the id resolves back to it. *)
Definition registered (w : World) (a : addr) : Prop :=
  0 <= index_of (bodyIndex w) a <= CInt.INT_MAX /\
  body_at (bodyIndex w) (index_of (bodyIndex w) a) = Some a.

(** The values the serializer supports: a wrapper attached to a live,
    registered body, and the two value kinds, on which their own codec
    (a parameter here) reads back what it wrote. *)
Inductive supported (w : World) : LuaValue -> Prop :=
  | supported_wrapper h wr a ob :
      wrappers w !! h = Some wr -> m_obj wr = Some a ->
      objects w !! a = Some ob -> IsType ob BODY = true ->
      registered w a ->
      supported w (LUserdata (UObjectWrapper h))
  | supported_path p :
      SBodyPath_Unserialize (SBodyPath_Serialize p) = p ->
      supported w (LUserdata (USBodyPath p))
  | supported_sysloc l :
      SysLoc_Unserialize (SysLoc_Serialize l) = l ->
      supported w (LUserdata (USysLoc l)).

(** Observable equivalence of a value [v] in [w] and a value [v'] in [w']:
    wrappers are attached to the same object, the other kinds are equal. *)
Definition equivalent (w w' : World) (v v' : LuaValue) : Prop :=
  match v, v' with
  | LUserdata (UObjectWrapper h), LUserdata (UObjectWrapper h') =>
      exists a, attached_to h a w /\ attached_to h' a w'
  | LUserdata (USBodyPath p), LUserdata (USBodyPath p') => p = p'
  | LUserdata (USysLoc l), LUserdata (USysLoc l') => l = l'
  | _, _ => False
  end.

Definition has_codec (v : LuaValue) : Prop :=
  match v with
  | LUserdata (UObjectWrapper _) | LUserdata (USBodyPath _)
  | LUserdata (USysLoc _) => True
  | _ => False
  end.

(** The part of a payload before its first newline. *)
Fixpoint leading_tag (s : string) : string :=
  match s with
  | EmptyString => EmptyString
  | String c s' =>
      if Ascii.eqb c CStr.newline then EmptyString else String c (leading_tag s')
  end.

Definition registered_tags : list string :=
  ["ObjectWrapper"; "SBodyPath"; "SysLoc"].

(** The tag and the body of the payload of a value. *)
Definition payload_parts (w : World) (v : LuaValue) : option (string * string) :=
  match v with
  | LUserdata (UObjectWrapper h) =>
      wr ← wrappers w !! h;
      a ← m_obj wr;
      Some ("ObjectWrapper", CStr.format_d (index_of (bodyIndex w) a) ++ CStr.nl)
  | LUserdata (USBodyPath p) => Some ("SBodyPath", SBodyPath_Serialize p)
  | LUserdata (USysLoc l) => Some ("SysLoc", SysLoc_Serialize l)
  | _ => None
  end.

(** Decoding a list of payloads one after the other. *)
Fixpoint decode_all (payloads : list string) (w : World)
  : option (list LuaRet * World) :=
  match payloads with
  | [] => Some ([], w)
  | p :: rest =>
      '(r, w1) ← UserDataUnserialize p w;
      '(rs, w2) ← decode_all rest w1;
      Some (r :: rs, w2)
  end.

End Lua.

(** ** A small universe to run the model on *)

Module Sample.

Definition equip_decl : EquipDecl :=
  {| Equip_Type := nat; Equip_Slot := bool;
     Equip_Type_eq := _; Equip_Slot_eq := _;
     NONE := 0%nat; EquipType_slot := Nat.even |}.

(** A text form for [SysLoc]: its three fields in decimal, one per line. *)
Fixpoint first_line (s : string) : string :=
  match s with
  | EmptyString => EmptyString
  | String c s' =>
      if Ascii.eqb c CStr.newline then EmptyString else String c (first_line s')
  end.

Fixpoint next_line (s : string) : string :=
  match s with
  | EmptyString => EmptyString
  | String c s' => if Ascii.eqb c CStr.newline then s' else next_line s'
  end.

Definition write_line (z : Z) : string :=
  NilZero.string_of_int (Z.to_int z) ++ CStr.nl.

Definition read_line (s : string) : Z :=
  match NilZero.int_of_string (first_line s) with
  | Some d => Z.of_int d
  | None => 0
  end.

Definition write_sysloc (l : SysLoc) : string :=
  write_line (sectorX l) ++ write_line (sectorY l) ++ write_line (systemIdx l).

Definition read_sysloc (s : string) : SysLoc :=
  mkSysLoc (read_line s) (read_line (next_line s))
           (read_line (next_line (next_line s))).

(** The sample generator gives -1, 0, 0.01, 0.01, ...; the sample
    compiler evaluates the arguments of a call right to left. *)
Definition sim_types : SimTypes :=
  {| SBody := nat;
     SBodyPath := string;
     Board := list BBAdvert;
     BBAddAdvert := fun ad b => (b ++ [ad])%list;
     BBRemoveAdvert := fun m r b =>
       filter (fun ad => ~ (ad_luaMod ad = m /\ ad_luaRef ad = r)) b;
     GetPathOf := fun sb => write_line (Z.of_nat sb);
     SBodyPath_Serialize := fun p => p;
     SBodyPath_Unserialize := fun s => s;
     SysLoc_Serialize := write_sysloc;
     SysLoc_Unserialize := read_sysloc;
     Rng := nat;
     rng_Double := fun lo hi r =>
       (match r with
        | O => lo
        | S O => Double.zero
        | _ => Double.lit_0_01
        end, S r);
     HYPERCLOUD_DURATION := Double.of_Z 172800;
     arg_order := ZYX |}.

Definition origin : vector3d := Vec3 Double.zero Double.zero Double.zero.

Definition ship (slots : list nat) : @Object sim_types :=
  @mkObject sim_types
    (fun t => match t with BODY | SHIP => true | _ => false end)
    slots "Ship" 12345 None None (@nil BBAdvert) None origin origin.

Definition cloud (s : nat) (due : double) (arrival : bool) : @Object sim_types :=
  @mkObject sim_types
    (fun t => match t with BODY => true | _ => false end)
    [] "Cloud" 0 None None (@nil BBAdvert) None origin origin.

Definition sim_ctors : @SimCtors equip_decl sim_types :=
  @Build_SimCtors equip_decl sim_types (fun _ => ship []) cloud.

(** The ship at address 10 has id 0; nothing else is indexed. *)
Definition index : BodyIndex :=
  mkBodyIndex (fun a => if (a =? 10)%nat then 0 else -1)
              (fun i => if i =? 0 then Some 10%nat else None).

(** One ship at address 10 and no wrapper. *)
Definition world0 : @World equip_decl sim_types :=
  @mkWorld equip_decl sim_types {[ 10%nat := ship [] ]} ∅ [10%nat] (Some 10%nat)
    Double.zero false 0%nat ∅ index.

(** The same with one wrapper, at address 1, attached to the ship. *)
Definition world1 : @World equip_decl sim_types :=
  @mkWorld equip_decl sim_types {[ 10%nat := ship [1%nat] ]}
    {[ 1%nat := mkWrapper (Some 10%nat) (Some 10%nat) ]} [10%nat] (Some 10%nat)
    Double.zero false 0%nat ∅ index.

(** The wrapper of [world1] once the ship is gone. *)
Definition world2 : @World equip_decl sim_types :=
  @mkWorld equip_decl sim_types ∅ {[ 1%nat := mkWrapper None None ]} [] None
    Double.zero false 0%nat ∅ index.

(** A slot array [NONE; 5; NONE; NONE] for the items of even number. *)
Definition equipment : @EquipSet.t equip_decl :=
  @EquipSet.mk equip_decl
    (fun s : bool => if s then [0; 5; 0; 0]%nat else []) 0.

End Sample.

(** ** Further notions used to state what the code does *)

Section MoreEquipDefs.
Context `{EquipDecl}.
Import EquipSet.

(** The number of slots below index [i] that hold [e], counted as [Count]
    counts. *)
Definition held_before (e : Equip_Type) (v : list Equip_Type) (i : nat) : Z :=
  Count_loop e 0 (take i v).

End MoreEquipDefs.

Section SpawnDefs.
Context `{SimCtors}.




End SpawnDefs.

(** ** A second sample: a ship docked at a station *)

Module Harbour.

Definition ladybird : @ShipType Sample.equip_decl :=
  @mkShipType Sample.equip_decl "Ladybird" "ladybird" [] Double.zero []
    (fun _ => 4) 60 40 87000 0%nat.

Definition station : @Object Sample.sim_types :=
  @mkObject Sample.sim_types
    (fun t => match t with BODY | SPACESTATION => true | _ => false end)
    [] "Mir" 0 None None (@nil BBAdvert) None Sample.origin Sample.origin.

(** The ship of [Sample], docked at the station at address 20. *)
Definition docked_ship (slots : list nat) : @Object Sample.sim_types :=
  @mkObject Sample.sim_types
    (fun t => match t with BODY | SHIP => true | _ => false end)
    slots "Ship" 12345 (Some 20%nat) None (@nil BBAdvert) None
    Sample.origin Sample.origin.

(** The player's ship at 10, docked at the station at 20, one wrapper at 1
    on the ship, the ship type Ladybird; [building] is the answer of
    [Space::IsSystemBeingBuilt]. *)
Definition world (building : bool) : @World Sample.equip_decl Sample.sim_types :=
  @mkWorld Sample.equip_decl Sample.sim_types
    (<[ 10%nat := docked_ship [1%nat] ]> {[ 20%nat := station ]})
    {[ 1%nat := mkWrapper (Some 10%nat) (Some 10%nat) ]} [10%nat; 20%nat]
    (Some 10%nat) Double.zero building 0%nat {[ "Ladybird" := ladybird ]}
    Sample.index.

(** A slot array [2; NONE; 2; 2] for the items of even number. *)
Definition hold : @EquipSet.t Sample.equip_decl :=
  @EquipSet.mk Sample.equip_decl
    (fun s : bool => if s then [2; 0; 2; 2]%nat else []) 0.

End Harbour.

(** * Properties *)

(** ** Printing and reading decimal numbers *)

Module CStrFacts.
Import CStr.


Lemma string_app_cons (c : ascii) (s r : string) :
  String c s ++ r = String c (s ++ r).
Proof. reflexivity. Qed.

Lemma string_length_app (s1 s2 : string) :
  String.length (s1 ++ s2) = (String.length s1 + String.length s2)%nat.
Proof.
  induction s1 as [|c s1 IH]; [reflexivity|].
  rewrite string_app_cons. cbn [String.length]. rewrite IH. reflexivity.
Qed.

Lemma string_app_assoc (s1 s2 s3 : string) : s1 ++ s2 ++ s3 = (s1 ++ s2) ++ s3.
Proof.
  induction s1 as [|c s1 IH]; [reflexivity|].
  rewrite !string_app_cons, IH. reflexivity.
Qed.

Lemma substring_all (s : string) (n : nat) :
  (String.length s <= n)%nat -> substring 0 n s = s.
Proof.
  revert n. induction s as [|c s IH]; intros [|n] Hn; simpl in *; try reflexivity; try lia.
  f_equal. apply IH. lia.
Qed.

Lemma substring_prefix (p r : string) :
  substring 0 (String.length p) (p ++ r) = p.
Proof.
  induction p as [|c p IH].
  - destruct r; reflexivity.
  - rewrite string_app_cons. cbn [String.length substring]. f_equal. exact IH.
Qed.

Lemma substring_skip (p r : string) (m : nat) :
  substring (String.length p) m (p ++ r) = substring 0 m r.
Proof.
  induction p as [|c p IH]; [reflexivity|].
  rewrite string_app_cons. cbn [String.length substring]. exact IH.
Qed.

Lemma substr_from_app (p r : string) :
  substr_from (String.length p) (p ++ r) = r.
Proof.
  unfold substr_from. rewrite substring_skip, string_length_app.
  apply substring_all. lia.
Qed.

Lemma digit_char_isdigit d : 0 <= d <= 9 -> isdigit (digit_char d) = true.
Proof.
  intros Hd.
  assert (Hc : d = 0 \/ d = 1 \/ d = 2 \/ d = 3 \/ d = 4 \/
               d = 5 \/ d = 6 \/ d = 7 \/ d = 8 \/ d = 9) by lia.
  repeat (destruct Hc as [-> | Hc]; [reflexivity|]). subst; reflexivity.
Qed.

Lemma digit_val_char d : 0 <= d <= 9 -> digit_val (digit_char d) = d.
Proof.
  intros Hd.
  assert (Hc : d = 0 \/ d = 1 \/ d = 2 \/ d = 3 \/ d = 4 \/
               d = 5 \/ d = 6 \/ d = 7 \/ d = 8 \/ d = 9) by lia.
  repeat (destruct Hc as [-> | Hc]; [reflexivity|]). subst; reflexivity.
Qed.

Lemma isdigit_plain c :
  isdigit c = true ->
  isspace c = false /\ Ascii.eqb c "-" = false /\ Ascii.eqb c "+" = false.
Proof.
  destruct c as [[] [] [] [] [] [] [] []]; vm_compute; intros; try discriminate; auto.
Qed.

Lemma digits_aux_S fuel n acc :
  digits_aux (S fuel) n acc =
  if n / 10 =? 0 then String (digit_char (n mod 10)) acc
  else digits_aux fuel (n / 10) (String (digit_char (n mod 10)) acc).
Proof. reflexivity. Qed.

Lemma parse_digits_aux fuel : forall n acc,
  0 <= n < 10 ^ Z.of_nat (S fuel) ->
  parse_digits 0 (digits_aux (S fuel) n acc) = parse_digits n acc.
Proof.
  induction fuel as [|fuel IH]; intros n acc Hn.
  - change (10 ^ Z.of_nat 1) with 10 in Hn.
    cbn [digits_aux]. rewrite (Z.div_small n 10) by lia.
    change (0 =? 0) with true. cbn iota. cbn [parse_digits].
    rewrite Z.mod_small by lia.
    rewrite digit_char_isdigit, digit_val_char by lia. reflexivity.
  - rewrite digits_aux_S. destruct (n / 10 =? 0) eqn:Hq.
    + apply Z.eqb_eq in Hq.
      assert (n < 10) by (pose proof (Z.div_mod n 10); pose proof (Z.mod_pos_bound n 10); lia).
      cbn [parse_digits]. rewrite Z.mod_small by lia.
      rewrite digit_char_isdigit, digit_val_char by lia. reflexivity.
    + rewrite IH.
      * cbn [parse_digits].
        pose proof (Z.mod_pos_bound n 10 ltac:(lia)).
        rewrite digit_char_isdigit, digit_val_char by lia.
        f_equal. pose proof (Z.div_mod n 10 ltac:(lia)). lia.
      * split; [apply Z.div_pos; lia|].
        apply Z.div_lt_upper_bound; [lia|].
        replace (10 * 10 ^ Z.of_nat (S fuel)) with (10 ^ Z.of_nat (S (S fuel))); [lia|].
        rewrite (Nat2Z.inj_succ (S fuel)), Z.pow_succ_r by lia. reflexivity.
Qed.

Lemma digits_aux_head fuel : forall n acc,
  0 <= n ->
  exists c s, digits_aux (S fuel) n acc = String c s /\ isdigit c = true.
Proof.
  induction fuel as [|fuel IH]; intros n acc Hn.
  - cbn [digits_aux]. pose proof (Z.mod_pos_bound n 10 ltac:(lia)).
    destruct (n / 10 =? 0); eexists _, _; (split; [reflexivity|]); apply digit_char_isdigit; lia.
  - rewrite digits_aux_S. pose proof (Z.mod_pos_bound n 10 ltac:(lia)).
    destruct (n / 10 =? 0).
    + eexists _, _; (split; [reflexivity|]); apply digit_char_isdigit; lia.
    + apply IH. apply Z.div_pos; lia.
Qed.

Lemma digits_aux_app fuel : forall n acc,
  digits_aux fuel n acc = digits_aux fuel n EmptyString ++ acc.
Proof.
  induction fuel as [|fuel IH]; intros n acc; [reflexivity|].
  rewrite !digits_aux_S. destruct (n / 10 =? 0); [reflexivity|].
  rewrite IH, (IH _ (String _ EmptyString)), <- string_app_assoc. reflexivity.
Qed.

Lemma digits_aux_length fuel : forall n acc,
  (String.length (digits_aux fuel n acc) <= fuel + String.length acc)%nat.
Proof.
  induction fuel as [|fuel IH]; intros n acc; [cbn [digits_aux]; lia|].
  rewrite digits_aux_S. destruct (n / 10 =? 0); [cbn [String.length]; lia|].
  etransitivity; [apply IH|]. cbn [String.length]. lia.
Qed.

Lemma format_d_length n : (String.length (format_d n) <= 11)%nat.
Proof.
  unfold format_d, digits. destruct (n <? 0); simpl String.length.
  - pose proof (digits_aux_length 10 (- n) EmptyString). simpl in *. lia.
  - pose proof (digits_aux_length 10 n EmptyString). simpl in *. lia.
Qed.

(** Reading back what [%d] printed, whatever non-digit follows. *)
Lemma atoi_format_d n c rest :
  CInt.in_int n -> isdigit c = false ->
  atoi (format_d n ++ String c rest) = n.
Proof.
  unfold CInt.in_int, CInt.INT_MIN, CInt.INT_MAX. intros Hn Hc.
  assert (Hpd : forall m, 0 <= m <= 2 ^ 31 ->
            parse_digits 0 (digits m ++ String c rest) = m).
  { intros m Hm. unfold digits. rewrite <- digits_aux_app.
    rewrite parse_digits_aux by (change (10 ^ Z.of_nat 10) with 10000000000; lia).
    cbn [parse_digits]. rewrite Hc. reflexivity. }
  assert (Hclamp : forall m, - 2 ^ 31 <= m <= 2 ^ 31 -> CInt.clamp_long m = m).
  { intros m Hm. unfold CInt.clamp_long, CInt.LONG_MIN, CInt.LONG_MAX. lia. }
  assert (Hint : CInt.to_int n = n).
  { unfold CInt.to_int. rewrite Z.mod_small; lia. }
  unfold atoi, strtol10, format_d. destruct (Z.ltb_spec n 0) as [Hneg|Hpos].
  - rewrite string_app_cons. cbn [skip_space]. change (isspace "-") with false. cbn iota.
    change (Ascii.eqb "-" "-") with true. cbn iota.
    rewrite Hpd by lia. rewrite Hclamp by lia.
    rewrite Z.opp_involutive. exact Hint.
  - destruct (digits_aux_head 9 n EmptyString Hpos) as (d & s & Hd & Hdig).
    fold (digits n) in Hd. rewrite Hd.
    destruct (isdigit_plain d Hdig) as (Hsp & Hm & Hp).
    rewrite string_app_cons. cbn [skip_space]. rewrite Hsp, Hm, Hp.
    rewrite <- string_app_cons.
    rewrite <- Hd, Hpd by lia. rewrite Hclamp by lia. exact Hint.
Qed.

End CStrFacts.

(** ** Lists *)

Section ListFacts.

Lemma filter_ext_in {A} (P Q : A -> Prop) `{!∀ x, Decision (P x), !∀ x, Decision (Q x)}
    (l : list A) :
  (forall x, x ∈ l -> (P x <-> Q x)) -> filter P l = filter Q l.
Proof.
  induction l as [|x l IH]; intros Hpq; [done|].
  rewrite !filter_cons, IH by (intros y Hy; apply Hpq; by right).
  apply decide_ext, Hpq. by left.
Qed.

Lemma filter_all {A} (P : A -> Prop) `{!∀ x, Decision (P x)} (l : list A) :
  (forall x, x ∈ l -> P x) -> filter P l = l.
Proof.
  induction l as [|x l IH]; intros Hp; [done|].
  rewrite filter_cons_True by (apply Hp; by left).
  rewrite IH; [done|]. intros y Hy. apply Hp. by right.
Qed.

Lemma filter_none {A} (P : A -> Prop) `{!∀ x, Decision (P x)} (l : list A) :
  (forall x, x ∈ l -> ~ P x) -> filter P l = [].
Proof.
  induction l as [|x l IH]; intros Hp; [done|].
  rewrite filter_cons_False by (apply Hp; by left).
  apply IH. intros y Hy. apply Hp. by right.
Qed.

End ListFacts.

(** ** EquipSet *)

Section EquipSetFacts.
Context `{EquipDecl}.
Import EquipSet.
Local Open Scope list_scope.

Lemma to_int_id z : CInt.in_int z -> CInt.to_int z = z.
Proof.
  unfold CInt.in_int, CInt.INT_MIN, CInt.INT_MAX, CInt.to_int. intros Hz.
  rewrite Z.mod_small; lia.
Qed.

Lemma occ_cons e x v :
  occ e (x :: v) = if decide (x = e) then S (occ e v) else occ e v.
Proof. unfold occ. rewrite filter_cons. by destruct (decide (x = e)). Qed.

Lemma occ_le_length e v : (occ e v <= length v)%nat.
Proof. unfold occ. apply length_filter. Qed.

Lemma Count_loop_spec e v : forall n,
  0 <= n -> n + Z.of_nat (length v) <= CInt.INT_MAX ->
  Count_loop e n v = n + Z.of_nat (occ e v).
Proof.
  induction v as [|x v IH]; intros n Hn Hb; simpl in *.
  - unfold occ. simpl. lia.
  - rewrite occ_cons. destruct (decide (x = e)).
    + rewrite to_int_id by (unfold CInt.in_int, CInt.INT_MIN; lia).
      rewrite IH; lia.
    + rewrite IH; lia.
Qed.

Lemma Add_loop_spec e num v : forall nd,
  0 <= nd <= num -> nd + Z.of_nat (length v) <= CInt.INT_MAX ->
  let '(r, n) := Add_loop e num nd v in
  n = nd + Z.min (num - nd) (Z.of_nat (occ NONE v)) /\
  length r = length v /\
  forall i x, v !! i = Some x ->
    r !! i = Some (if decide (x = NONE)
                   then if nd + Z.of_nat (occ NONE (take i v)) <? num then e else NONE
                   else x).
Proof.
  induction v as [|x v IH]; intros nd Hnd Hb; simpl in *.
  - split; [unfold occ; simpl; lia|]. split; [done|]. intros i x Hx. by rewrite lookup_nil in Hx.
  - destruct (nd =? num) eqn:Heq.
    + apply Z.eqb_eq in Heq. subst nd. split; [lia|]. split; [done|].
      intros i y Hy. rewrite Hy. f_equal.
      destruct (decide (y = NONE)) as [->|]; [|done].
      destruct (Z.ltb_spec (num + Z.of_nat (occ NONE (take i (x :: v)))) num); [lia|done].
    + apply Z.eqb_neq in Heq. rewrite occ_cons.
      destruct (decide (x = NONE)) as [->|Hx].
      * rewrite to_int_id by (unfold CInt.in_int, CInt.INT_MIN; lia).
        specialize (IH (nd + 1)). destruct (Add_loop e num (nd + 1) v) as [r n].
        destruct IH as (Hn & Hl & Hi); [lia|lia|].
        split; [lia|]. split; [simpl; lia|].
        intros [|i] y Hy; simpl in *.
        -- injection Hy as <-. rewrite decide_True by done.
           unfold occ; simpl. destruct (Z.ltb_spec (nd + Z.of_nat 0) num); [done|lia].
        -- rewrite (Hi _ _ Hy). f_equal. destruct (decide (y = NONE)); [|done].
           rewrite occ_cons, decide_True by done.
           replace (nd + 1 + Z.of_nat (occ NONE (take i v))) with (nd + Z.of_nat (S (occ NONE (take i v)))) by lia.
           done.
      * specialize (IH nd). destruct (Add_loop e num nd v) as [r n].
        destruct IH as (Hn & Hl & Hi); [lia|lia|].
        split; [lia|]. split; [simpl; lia|].
        intros [|i] y Hy; simpl in *.
        -- injection Hy as <-. by rewrite decide_False.
        -- rewrite (Hi _ _ Hy). f_equal. destruct (decide (y = NONE)); [|done].
           by rewrite occ_cons, decide_False.
Qed.

Lemma filter_one {A} (P : A -> Prop) `{!∀ x, Decision (P x)} (y : A) :
  length (filter P [y]) = if decide (P y) then 1%nat else 0%nat.
Proof. rewrite filter_cons, filter_nil. by case_decide. Qed.

Lemma occ_app e v1 v2 : occ e (v1 ++ v2) = (occ e v1 + occ e v2)%nat.
Proof. unfold occ. by rewrite filter_app, length_app. Qed.

Lemma empty_before_occ v i :
  Z.of_nat (length v) <= CInt.INT_MAX ->
  empty_before v i = Z.of_nat (occ NONE (take i v)).
Proof.
  intros Hb. unfold empty_before. rewrite Count_loop_spec; [lia|lia|].
  rewrite length_take. lia.
Qed.

Lemma filled_length num v :
  0 <= num -> Z.of_nat (length v) <= CInt.INT_MAX ->
  Z.of_nat (length (filled num v)) = Z.min num (Z.of_nat (occ NONE v)).
Proof.
  intros Hnum. induction v as [|x v IH] using rev_ind; intros Hb.
  - unfold filled, occ. simpl. lia.
  - rewrite length_app in Hb. simpl in Hb.
    unfold filled. rewrite length_app. simpl length.
    replace (length v + 1)%nat with (S (length v)) by lia.
    rewrite seq_S, filter_app, length_app. rewrite Nat.add_0_l.
    rewrite (filter_ext_in _ (λ i, v !! i = Some NONE /\ empty_before v i < num)).
    2:{ intros i Hi. apply elem_of_seq in Hi.
        rewrite lookup_app_l by lia. unfold empty_before.
        rewrite take_app_le by lia. done. }
    fold (filled num v). rewrite Nat2Z.inj_add, IH by lia.
    rewrite occ_app, Nat2Z.inj_add.
    assert (Hlast : (v ++ [x]) !! length v = Some x).
    { rewrite lookup_app_r by lia. by rewrite Nat.sub_diag. }
    assert (Hbef : empty_before (v ++ [x]) (length v) = Z.of_nat (occ NONE v)).
    { unfold empty_before. rewrite take_app_length. apply Count_loop_spec; lia. }
    unfold occ at 3. rewrite !filter_one, Hlast, Hbef.
    destruct (decide (x = NONE)) as [->|Hx].
    + case_decide as Hc; [|assert (~ Z.of_nat (occ NONE v) < num) by tauto]; lia.
    + rewrite decide_False by (intros [? _]; congruence). lia.
Qed.

Lemma Add_unfold (e : Equip_Type) (num : Z) (es : t) :
  let '(r, n) := Add_loop e num 0 (equip es (EquipType_slot e)) in
  (Add e num es).1 = (n =? num) /\
  forall s0, equip (Add e num es).2 s0
             = if decide (s0 = EquipType_slot e) then r else equip es s0.
Proof.
  unfold Add. destruct (Add_loop e num 0 (equip es (EquipType_slot e))) as [r n].
  split; [done|]. intros s0. by destruct (n =? 0).
Qed.

(** C10: for every equipment type [e] and count [0 <= num], [Add e num]
    writes [e] into exactly [min num free] empty slots of the slot array
    of [e], where [free] is the number of its empty slots ([FreeSpace]):
    scanning from index 0 upward, an empty slot is filled if and only if
    fewer than [num] empty slots lie below it; slots that are not empty,
    and the other slot arrays, are unchanged; and [Add] returns true if
    and only if [num <= free]. ([num] and the array length are [int]s.) *)
Theorem Add_fills_lowest_empty_slots (e : Equip_Type) (num : Z) (es : t) :
  0 <= num <= CInt.INT_MAX ->
  Z.of_nat (length (equip es (EquipType_slot e))) <= CInt.INT_MAX ->
  let s := EquipType_slot e in
  let v := equip es s in
  let free := FreeSpace es s in
  let v' := equip (Add e num es).2 s in
  ((Add e num es).1 = true <-> num <= free) /\
  length v' = length v /\
  (forall i x, v !! i = Some x -> x ≠ NONE -> v' !! i = Some x) /\
  (forall i, v !! i = Some NONE ->
     v' !! i = Some (if empty_before v i <? num then e else NONE)) /\
  Z.of_nat (length (filled num v)) = Z.min num free /\
  (forall s', s' ≠ s -> equip (Add e num es).2 s' = equip es s').
Proof.
  intros Hnum Hb. cbv zeta.
  pose proof (Add_unfold e num es) as Hu.
  pose proof (Add_loop_spec e num (equip es (EquipType_slot e)) 0
                ltac:(lia) ltac:(lia)) as Hloop.
  destruct (Add_loop e num 0 (equip es (EquipType_slot e))) as [r n].
  destruct Hu as [Hu1 Hu2]. destruct Hloop as (Hn & Hl & Hi).
  rewrite Hu1, !Hu2, decide_True by done.
  assert (Hfree : FreeSpace es (EquipType_slot e)
                  = Z.of_nat (occ NONE (equip es (EquipType_slot e)))).
  { unfold FreeSpace. apply Count_loop_spec; lia. }
  rewrite Hfree.
  split; [|split; [done|split; [|split; [|split]]]].
  - rewrite Z.eqb_eq. lia.
  - intros i x Hx Hne. rewrite (Hi _ _ Hx). by rewrite decide_False.
  - intros i Hx. rewrite (Hi _ _ Hx). rewrite decide_True by done.
    rewrite empty_before_occ by done. done.
  - apply filled_length; [lia|done].
  - intros s' Hne. rewrite Hu2. by rewrite decide_False.
Qed.

End EquipSetFacts.

(** ** ObjectWrapper: construction, notification, destruction *)

Section WrapperFacts.
Context `{EquipDecl} `{SimTypes}.
Implicit Types (w : World) (h a : nat).
Local Open Scope list_scope.

Lemma ctor_spec h a w ob :
  objects w !! a = Some ob ->
  ObjectWrapper_ctor h (Some a) w =
    Some (set_wrappers (<[h := mkWrapper (Some a) (Some a)]> (wrappers w))
            (set_objects (<[a := set_onDelete (onDelete ob ++ [h]) ob]> (objects w)) w)).
Proof. intros Ha. unfold ObjectWrapper_ctor, connect. simpl. rewrite Ha. reflexivity. Qed.

Lemma ctor_WF h a w ob w' :
  WF w -> wrappers w !! h = None -> objects w !! a = Some ob ->
  ObjectWrapper_ctor h (Some a) w = Some w' -> WF w'.
Proof.
  intros [Hrel Hcon Hslot] Hfree Ha Hc. rewrite (ctor_spec _ _ _ _ Ha) in Hc.
  injection Hc as <-. split; simpl.
  - intros h' wr. rewrite lookup_insert. case_decide; [|by eauto].
    intros [= <-]. reflexivity.
  - intros h' wr a'. rewrite lookup_insert. case_decide as Hh.
    + subst h'. intros [= <-] [= <-]. rewrite lookup_insert_eq. eexists; split; [done|].
      simpl. set_solver.
    + intros Hw Hd. destruct (Hcon _ _ _ Hw Hd) as (ob' & Hob' & Hin).
      rewrite lookup_insert. case_decide.
      * subst a'. rewrite Ha in Hob'. injection Hob' as <-. eexists; split; [done|]. simpl. set_solver.
      * eauto.
  - intros a' ob' h'. rewrite lookup_insert. case_decide.
    + subst a'. intros [= <-]. simpl. rewrite elem_of_app, list_elem_of_singleton.
      intros [Hin | ->].
      * destruct (Hslot _ _ _ Ha Hin) as (wr & Hwr & Hd).
        exists wr. split; [|done]. rewrite lookup_insert_ne; [done|]. congruence.
      * rewrite lookup_insert_eq. eauto.
    + intros Hob' Hin. destruct (Hslot _ _ _ Hob' Hin) as (wr & Hwr & Hd).
      exists wr. split; [|done]. rewrite lookup_insert_ne; [done|]. congruence.
Qed.

Lemma unhook_lookup h wr objs a :
  unhook h wr objs !! a =
  (λ ob, if decide (m_delCon wr = Some a)
         then set_onDelete (filter (λ h', h' ≠ h) (onDelete ob)) ob else ob)
    <$> objs !! a.
Proof.
  destruct (decide (m_delCon wr = Some a)) as [Heq|Hneq]; unfold unhook.
  - rewrite Heq. destruct (objs !! a) as [ob|] eqn:Ha.
    + by rewrite lookup_insert_eq.
    + by rewrite Ha.
  - destruct (m_delCon wr) as [a0|]; [|by destruct (objs !! a)].
    assert (a0 ≠ a) by congruence.
    transitivity (objs !! a); [|by destruct (objs !! a)].
    destruct (objs !! a0); [by rewrite lookup_insert_ne|done].
Qed.

Lemma disconnect_spec h w wr :
  wrappers w !! h = Some wr ->
  disconnect h w =
    Some (match m_delCon wr with
          | None => w
          | Some _ =>
              set_wrappers (<[h := mkWrapper (m_obj wr) None]> (wrappers w))
                (set_objects (unhook h wr (objects w)) w)
          end).
Proof.
  intros Hw. unfold disconnect, unhook. rewrite Hw. simpl.
  destruct (m_delCon wr) as [a|]; [|done]. by destruct (objects w !! a).
Qed.

Lemma OnDelete_spec h w wr :
  wrappers w !! h = Some wr ->
  OnDelete h w =
    Some (set_wrappers (<[h := mkWrapper None None]> (wrappers w))
            (set_objects (unhook h wr (objects w)) w)).
Proof.
  intros Hw. unfold OnDelete. rewrite Hw. simpl.
  erewrite disconnect_spec by (simpl; apply lookup_insert_eq).
  destruct w as [objs wrs bs pl gt sb rg sts bi]; simpl in *.
  unfold unhook, set_wrappers, set_objects; simpl.
  destruct (m_delCon wr) as [a|]; simpl; [|done].
  by rewrite insert_insert_eq.
Qed.

Lemma dtor_spec h w wr :
  wrappers w !! h = Some wr ->
  ObjectWrapper_dtor h w =
    Some (set_wrappers (delete h (wrappers w))
            (set_objects (unhook h wr (objects w)) w)).
Proof.
  intros Hw. unfold ObjectWrapper_dtor. rewrite (disconnect_spec _ _ _ Hw). simpl.
  destruct w as [objs wrs bs pl gt sb rg sts bi]; simpl in *.
  unfold unhook, set_wrappers, set_objects; simpl.
  destruct (m_delCon wr) as [a|]; simpl; [|done].
  by rewrite delete_insert_eq.
Qed.

Lemma unhook_WF w h wr W' :
  WF w -> wrappers w !! h = Some wr ->
  (forall h', h' ≠ h -> W' !! h' = wrappers w !! h') ->
  (W' !! h = None \/ W' !! h = Some (mkWrapper None None)) ->
  WF (set_wrappers W' (set_objects (unhook h wr (objects w)) w)).
Proof.
  intros [Hrel Hcon Hslot] Hw Hoth Hh. split; simpl.
  - intros h' wr' Hw'. destruct (decide (h' = h)) as [->|Hne].
    + destruct Hh as [Hh|Hh]; rewrite Hh in Hw'; [done|]. by injection Hw' as <-.
    + rewrite Hoth in Hw' by done. eauto.
  - intros h' wr' a' Hw' Hd. destruct (decide (h' = h)) as [->|Hne].
    + destruct Hh as [Hh|Hh]; rewrite Hh in Hw'; [done|]. by injection Hw' as <-.
    + rewrite Hoth in Hw' by done.
      destruct (Hcon _ _ _ Hw' Hd) as (ob & Hob & Hin).
      rewrite unhook_lookup, Hob. simpl. eexists; split; [done|].
      case_decide; [|done]. simpl. apply list_elem_of_filter. done.
  - intros a' ob' h'. rewrite unhook_lookup.
    destruct (objects w !! a') as [ob|] eqn:Hob; simpl; [|done].
    intros [= <-] Hin.
    assert (h' ∈ onDelete ob /\ h' ≠ h) as [Hin' Hne].
    { case_decide as Hd.
      - simpl in Hin. apply list_elem_of_filter in Hin. tauto.
      - split; [done|]. intros ->.
        destruct (Hslot _ _ _ Hob Hin) as (wr' & Hwr' & Hd').
        rewrite Hw in Hwr'. injection Hwr' as <-. done. }
    rewrite Hoth by done. eauto.
Qed.

Lemma OnDelete_WF w h wr :
  WF w -> wrappers w !! h = Some wr ->
  exists w', OnDelete h w = Some w' /\ WF w'.
Proof.
  intros Hwf Hw. eexists. split; [by apply OnDelete_spec|].
  apply unhook_WF; [done|done| |].
  - intros h' Hne. by rewrite lookup_insert_ne.
  - right. apply lookup_insert_eq.
Qed.

Lemma dtor_WF w h wr :
  WF w -> wrappers w !! h = Some wr ->
  exists w', ObjectWrapper_dtor h w = Some w' /\ WF w'.
Proof.
  intros Hwf Hw. eexists. split; [by apply dtor_spec|].
  apply unhook_WF; [done|done| |].
  - intros h' Hne. by rewrite lookup_delete_ne.
  - left. apply lookup_delete_eq.
Qed.


Lemma notified_gone a slots h :
  notified a slots h (mkWrapper None None) = mkWrapper None None.
Proof. unfold notified. by case_decide. Qed.

Lemma notified_hit a slots h wr :
  m_delCon wr = Some a -> h ∈ slots -> notified a slots h wr = mkWrapper None None.
Proof. intros Hd Hin. unfold notified. by rewrite decide_True. Qed.

Lemma emit_slots_spec a slots : forall w ob,
  WF w -> objects w !! a = Some ob ->
  exists w', emit_slots a slots w = Some w' /\ WF w' /\
    (exists ob', objects w' !! a = Some ob' /\
                 onDelete ob' = filter (λ h, h ∉ slots) (onDelete ob)) /\
    (forall a', a' ≠ a -> objects w' !! a' = objects w !! a') /\
    (forall h, wrappers w' !! h = notified a slots h <$> wrappers w !! h).
Proof.
  induction slots as [|h rest IH]; intros w ob Hwf Ha.
  - exists w. split; [done|]. split; [done|]. split; [|split; [done|]].
    + exists ob. split; [done|]. symmetry. apply filter_all.
      intros x _. apply not_elem_of_nil.
    + intros h. destruct (wrappers w !! h) as [wr|]; [|done]. simpl. f_equal.
      unfold notified. case_decide as Hc; [|done]. destruct Hc as [_ Hc]. by apply not_elem_of_nil in Hc.
  - cbn [emit_slots]. rewrite Ha.
    destruct (bool_decide (h ∈ onDelete ob)) eqn:Hin.
    + apply bool_decide_eq_true in Hin.
      destruct (wf_slot _ Hwf _ _ _ Ha Hin) as (wr & Hwr & Hd).
      rewrite (OnDelete_spec _ _ _ Hwr). simpl.
      set (w1 := set_wrappers _ _).
      assert (Hwf1 : WF w1).
      { apply unhook_WF; [done|done| |].
        - intros h' Hne. by rewrite lookup_insert_ne.
        - right. apply lookup_insert_eq. }
      assert (Ha1 : objects w1 !! a =
                Some (set_onDelete (filter (λ h', h' ≠ h) (onDelete ob)) ob)).
      { subst w1. simpl. rewrite unhook_lookup, Ha. simpl. by rewrite decide_True. }
      destruct (IH w1 _ Hwf1 Ha1) as (w' & Hrun & Hwf' & (ob' & Hob' & Hdel) & Hoth & Hwrs).
      exists w'. split; [done|]. split; [done|]. split; [|split].
      * exists ob'. split; [done|]. rewrite Hdel. simpl.
        rewrite list_filter_filter. apply list_filter_iff. intros x.
        rewrite not_elem_of_cons. tauto.
      * intros a' Hne. rewrite Hoth by done. subst w1. simpl.
        rewrite unhook_lookup. destruct (objects w !! a'); simpl; [|done].
        rewrite decide_False; [done|congruence].
      * intros h'. rewrite Hwrs. subst w1. simpl.
        destruct (decide (h' = h)) as [->|Hne].
        -- rewrite lookup_insert_eq, Hwr. cbn [fmap option_fmap option_map]. f_equal.
           rewrite notified_gone. symmetry. apply notified_hit; [done|]. by left.
        -- rewrite lookup_insert_ne by done.
           destruct (wrappers w !! h') as [wr'|]; [|done]. simpl. f_equal.
           unfold notified. apply decide_ext. rewrite elem_of_cons. tauto.
    + apply bool_decide_eq_false in Hin.
      destruct (IH w _ Hwf Ha) as (w' & Hrun & Hwf' & (ob' & Hob' & Hdel) & Hoth & Hwrs).
      exists w'. split; [done|]. split; [done|]. split; [|split; [done|]].
      * exists ob'. split; [done|]. rewrite Hdel.
        apply filter_ext_in. intros x Hx. rewrite not_elem_of_cons.
        split; [|tauto]. intros Hr. split; [|done]. intros ->. done.
      * intros h'. rewrite Hwrs.
        destruct (wrappers w !! h') as [wr'|] eqn:Hwr'; [|done]. simpl. f_equal.
        unfold notified. apply decide_ext. rewrite elem_of_cons.
        split; [tauto|]. intros [Hd [->|Hr]]; [|done].
        destruct (wf_con _ Hwf _ _ _ Hwr' Hd) as (ob2 & Hob2 & Hin2).
        rewrite Ha in Hob2. injection Hob2 as <-. done.
Qed.

Lemma Object_delete_spec a w ob :
  WF w -> objects w !! a = Some ob ->
  exists w', Object_delete a w = Some w' /\ WF w' /\
    objects w' !! a = None /\
    (forall a', a' ≠ a -> objects w' !! a' = objects w !! a') /\
    (forall h, wrappers w' !! h = orphaned a <$> wrappers w !! h).
Proof.
  intros Hwf Ha. unfold Object_delete, emit_onDelete. rewrite Ha. simpl.
  destruct (emit_slots_spec a (onDelete ob) w ob Hwf Ha)
    as (w1 & Hrun & Hwf1 & (ob1 & Hob1 & Hdel) & Hoth & Hwrs).
  rewrite Hrun. simpl. eexists. split; [done|].
  assert (Hnil : onDelete ob1 = []).
  { rewrite Hdel. apply filter_none. intros x Hx Hn. done. }
  split; [|split; [|split]]; simpl.
  - destruct Hwf1 as [Hrel Hcon Hslot]. split; simpl.
    + done.
    + intros h wr a' Hw Hd. destruct (Hcon _ _ _ Hw Hd) as (ob' & Hob' & Hin).
      destruct (decide (a' = a)) as [->|Hne].
      * rewrite Hob1 in Hob'. injection Hob' as <-. rewrite Hnil in Hin.
        by apply not_elem_of_nil in Hin.
      * rewrite lookup_delete_ne by done. eauto.
    + intros a' ob' h. rewrite lookup_delete. case_decide; [done|]. apply Hslot.
  - apply lookup_delete_eq.
  - intros a' Hne. rewrite lookup_delete_ne by done. by apply Hoth.
  - intros h. rewrite Hwrs. destruct (wrappers w !! h) as [wr|] eqn:Hw; [|done].
    simpl. f_equal. unfold notified, orphaned. apply decide_ext.
    split; [tauto|]. intros Hd. split; [done|].
    destruct (wf_con _ Hwf _ _ _ Hw Hd) as (ob2 & Hob2 & Hin2).
    rewrite Ha in Hob2. by injection Hob2 as <-.
Qed.

Lemma exec_WF e w w' : WF w -> exec e w = Some w' -> WF w'.
Proof.
  intros Hwf. destruct e as [h a|h|a ob|a ob|a]; simpl.
  - destruct (wrappers w !! h) eqn:Hh; [done|].
    destruct (objects w !! a) as [ob|] eqn:Ha.
    + intros Hc. by eapply ctor_WF.
    + unfold ObjectWrapper_ctor, connect. simpl. by rewrite Ha.
  - destruct (wrappers w !! h) as [wr|] eqn:Hh.
    + destruct (dtor_WF _ _ _ Hwf Hh) as (w1 & Hd & Hwf1). rewrite Hd. by intros [= <-].
    + unfold ObjectWrapper_dtor, disconnect. by rewrite Hh.
  - destruct (objects w !! a) eqn:Ha; [done|]. intros [= <-].
    destruct Hwf as [Hrel Hcon Hslot]. split; simpl; [done| |].
    + intros h wr a' Hw Hd. destruct (Hcon _ _ _ Hw Hd) as (ob' & Hob' & Hin).
      rewrite lookup_insert_ne by congruence. eauto.
    + intros a' ob' h. rewrite lookup_insert. case_decide.
      * intros [= <-]. simpl. intros Hin. by apply not_elem_of_nil in Hin.
      * apply Hslot.
  - destruct (objects w !! a) as [old|] eqn:Ha; [|done]. simpl. intros [= <-].
    destruct Hwf as [Hrel Hcon Hslot]. split; simpl; [done| |].
    + intros h wr a' Hw Hd. destruct (Hcon _ _ _ Hw Hd) as (ob' & Hob' & Hin).
      rewrite lookup_insert. case_decide; [|by eauto].
      subst a'. rewrite Ha in Hob'. injection Hob' as <-. eauto.
    + intros a' ob' h. rewrite lookup_insert. case_decide.
      * subst a'. intros [= <-]. simpl. by apply Hslot.
      * apply Hslot.
  - destruct (objects w !! a) as [ob|] eqn:Ha.
    + destruct (Object_delete_spec _ _ _ Hwf Ha) as (w1 & Hd & Hwf1 & _).
      rewrite Hd. by intros [= <-].
    + unfold Object_delete, emit_onDelete. by rewrite Ha.
Qed.

Lemma run_WF evs : forall w w', WF w -> run evs w = Some w' -> WF w'.
Proof.
  induction evs as [|e evs IH]; intros w w' Hwf; simpl.
  - by intros [= <-].
  - destruct (exec e w) as [w1|] eqn:He; [|done]. simpl.
    apply IH. by eapply exec_WF.
Qed.

Lemma exec_wrapper e w w' h wr :
  WF w -> exec e w = Some w' -> wrappers w !! h = Some wr -> e ≠ Collect h ->
  wrappers w' !! h = Some (after_event e wr).
Proof.
  intros Hwf He Hw Hne. destruct e as [h' a|h'|a ob|a ob|a]; cbn [exec after_event] in *.
  - destruct (wrappers w !! h') eqn:Hh'; [done|].
    destruct (objects w !! a) as [ob|] eqn:Ha.
    + rewrite (ctor_spec _ _ _ _ Ha) in He. injection He as <-. simpl.
      rewrite lookup_insert_ne; [done|]. congruence.
    + unfold ObjectWrapper_ctor, connect in He. simpl in He. by rewrite Ha in He.
  - destruct (wrappers w !! h') as [wr'|] eqn:Hh'.
    + rewrite (dtor_spec _ _ _ Hh') in He. injection He as <-. simpl.
      rewrite lookup_delete_ne; [done|]. congruence.
    + unfold ObjectWrapper_dtor, disconnect in He. by rewrite Hh' in He.
  - destruct (objects w !! a); [done|]. by injection He as <-.
  - destruct (objects w !! a); [|done]. by injection He as <-.
  - destruct (objects w !! a) as [ob|] eqn:Ha.
    + destruct (Object_delete_spec _ _ _ Hwf Ha) as (w1 & Hd & _ & _ & _ & Hwrs).
      rewrite Hd in He. injection He as <-. by rewrite Hwrs, Hw.
    + unfold Object_delete, emit_onDelete in He. by rewrite Ha in He.
Qed.

Lemma exec_absent e w w' h :
  exec e w = Some w' -> wrappers w !! h = None -> (forall a, e ≠ Wrap h a) ->
  WF w -> wrappers w' !! h = None.
Proof.
  intros He Hw Hne Hwf. destruct e as [h' a|h'|a ob|a ob|a]; cbn [exec after_event] in *.
  - destruct (wrappers w !! h') eqn:Hh'; [done|].
    destruct (objects w !! a) as [ob|] eqn:Ha.
    + rewrite (ctor_spec _ _ _ _ Ha) in He. injection He as <-. simpl.
      rewrite lookup_insert_ne; [done|]. intros ->. by apply (Hne a).
    + unfold ObjectWrapper_ctor, connect in He. simpl in He. by rewrite Ha in He.
  - destruct (wrappers w !! h') as [wr'|] eqn:Hh'.
    + rewrite (dtor_spec _ _ _ Hh') in He. injection He as <-. simpl.
      rewrite lookup_delete. by case_decide.
    + unfold ObjectWrapper_dtor, disconnect in He. by rewrite Hh' in He.
  - destruct (objects w !! a); [done|]. by injection He as <-.
  - destruct (objects w !! a); [|done]. by injection He as <-.
  - destruct (objects w !! a) as [ob|] eqn:Ha.
    + destruct (Object_delete_spec _ _ _ Hwf Ha) as (w1 & Hd & _ & _ & _ & Hwrs).
      rewrite Hd in He. injection He as <-. by rewrite Hwrs, Hw.
    + unfold Object_delete, emit_onDelete in He. by rewrite Ha in He.
Qed.

Lemma Is_attached t h a w wr ob :
  wrappers w !! h = Some wr -> m_obj wr = Some a -> objects w !! a = Some ob ->
  Is t h w = Some (IsType ob t).
Proof. intros Hw Hm Ha. unfold Is. rewrite Hw. simpl. rewrite Hm, Ha. done. Qed.

Lemma Is_detached t h w wr :
  wrappers w !! h = Some wr -> m_obj wr = None -> Is t h w = Some false.
Proof. intros Hw Hm. unfold Is. rewrite Hw. simpl. by rewrite Hm. Qed.

Lemma run_detached evs : forall w w' h wr,
  WF w -> wrappers w !! h = Some wr -> m_obj wr = None ->
  Collect h ∉ evs -> run evs w = Some w' -> detached h w'.
Proof.
  induction evs as [|e evs IH]; intros w w' h wr Hwf Hw Hm Hc; simpl.
  - intros [= <-]. by exists wr.
  - destruct (exec e w) as [w1|] eqn:He; [|done]. simpl.
    apply not_elem_of_cons in Hc as [Hc1 Hc2].
    pose proof (exec_wrapper _ _ _ _ _ Hwf He Hw ltac:(congruence)) as Hw1.
    apply (IH _ _ _ _ (exec_WF _ _ _ Hwf He) Hw1); [|done].
    destruct e; simpl; try done. unfold orphaned. by case_decide.
Qed.

Lemma run_tracks evs : forall w w' h wr a,
  WF w -> wrappers w !! h = Some wr -> m_obj wr = Some a ->
  Collect h ∉ evs -> run evs w = Some w' ->
  (Destroy a ∉ evs -> attached_to h a w') /\
  (Destroy a ∈ evs -> detached h w').
Proof.
  induction evs as [|e evs IH]; intros w w' h wr a Hwf Hw Hm Hc; simpl.
  - intros [= <-]. split.
    + intros _. by exists wr.
    + intros Hin. by apply not_elem_of_nil in Hin.
  - destruct (exec e w) as [w1|] eqn:He; [|done]. simpl. intros Hrun.
    apply not_elem_of_cons in Hc as [Hc1 Hc2].
    pose proof (exec_wrapper _ _ _ _ _ Hwf He Hw ltac:(congruence)) as Hw1.
    pose proof (exec_WF _ _ _ Hwf He) as Hwf1.
    assert (Hcase : e = Destroy a \/ (e ≠ Destroy a /\ after_event e wr = wr)).
    { destruct e as [| | | |a']; try (right; split; [congruence|done]).
      destruct (decide (a' = a)) as [->|Hne]; [by left|right].
      split; [congruence|]. simpl. unfold orphaned. rewrite decide_False; [done|].
      rewrite <- (wf_rel _ Hwf _ _ Hw), Hm. congruence. }
    destruct Hcase as [->|[Hne Hsame]].
    + assert (Hm1 : m_obj (after_event (Destroy a) wr) = None).
      { simpl. unfold orphaned. rewrite decide_True; [done|].
        rewrite <- Hm. symmetry. exact (wf_rel _ Hwf _ _ Hw). }
      split.
      * intros Hn. exfalso. apply Hn. by left.
      * intros _. by eapply run_detached.
    + rewrite Hsame in Hw1.
      destruct (IH _ _ _ _ _ Hwf1 Hw1 Hm Hc2 Hrun) as [IH1 IH2].
      split.
      * intros Hn. apply IH1. by apply not_elem_of_cons in Hn as [_ ?].
      * intros Hin. apply IH2. apply elem_of_cons in Hin as [?|?]; [congruence|done].
Qed.

Lemma run_absent evs : forall w w' h,
  WF w -> wrappers w !! h = None -> (forall a, Wrap h a ∉ evs) ->
  run evs w = Some w' -> wrappers w' !! h = None.
Proof.
  induction evs as [|e evs IH]; intros w w' h Hwf Hw Hn; simpl.
  - by intros [= <-].
  - destruct (exec e w) as [w1|] eqn:He; [|done]. simpl.
    apply IH.
    + by eapply exec_WF.
    + eapply exec_absent; [done|done| |done].
      intros a ->. apply (Hn a). by left.
    + intros a Hin. apply (Hn a). by right.
Qed.

(** C2: a wrapper built over a live object [a] is attached to [a] right
    after construction. In every later state, as long as the wrapper has
    not been collected: if [a] has not been destroyed the wrapper is still
    attached to [a], [a] is live, [Is] answers by the type of [a], and
    destroying [a] is possible and detaches the wrapper; once [a] has been
    destroyed the wrapper is detached and [Is] answers false, whatever
    happens afterwards. *)
Theorem handle_lifecycle (w : World) (h a : nat) (ob : Object) :
  WF w -> objects w !! a = Some ob -> wrappers w !! h = None ->
  exists w0, ObjectWrapper_ctor h (Some a) w = Some w0 /\
    attached_to h a w0 /\
    forall evs w', Collect h ∉ evs -> run evs w0 = Some w' ->
      (Destroy a ∉ evs ->
         attached_to h a w' /\
         (exists ob', objects w' !! a = Some ob' /\
                      forall t, Is t h w' = Some (IsType ob' t)) /\
         (exists w'', exec (Destroy a) w' = Some w'' /\ detached h w'')) /\
      (Destroy a ∈ evs ->
         detached h w' /\ forall t, Is t h w' = Some false).
Proof.
  intros Hwf Ha Hfree. eexists. split; [by apply ctor_spec|].
  set (w0 := set_wrappers _ _).
  assert (Hwf0 : WF w0) by (eapply ctor_WF; [done|done|done|by apply ctor_spec]).
  assert (Hw0 : wrappers w0 !! h = Some (mkWrapper (Some a) (Some a)))
    by apply lookup_insert_eq.
  split; [by eexists|].
  intros evs w' Hc Hrun.
  pose proof (run_WF _ _ _ Hwf0 Hrun) as Hwf'.
  destruct (run_tracks evs _ _ _ _ a Hwf0 Hw0 eq_refl Hc Hrun) as [Hlive Hgone].
  split.
  - intros Hn. destruct (Hlive Hn) as (wr & Hwr & Hm). split; [by exists wr|].
    assert (Hd : m_delCon wr = Some a) by (rewrite <- Hm; symmetry; by eapply wf_rel).
    destruct (wf_con _ Hwf' _ _ _ Hwr Hd) as (ob' & Hob' & _). split.
    + exists ob'. split; [done|]. intros t. by eapply Is_attached.
    + destruct (Object_delete_spec _ _ _ Hwf' Hob') as (w'' & Hdel & _ & _ & _ & Hwrs).
      exists w''. split; [done|]. eexists. split; [by rewrite Hwrs, Hwr|].
      unfold orphaned. by rewrite decide_True.
  - intros Hin. destruct (Hgone Hin) as (wr & Hwr & Hm).
    split; [by exists wr|]. intros t. by eapply Is_detached.
Qed.

(** C8: the destructor of a wrapper, attached or detached, frees the
    wrapper and takes its slot out of the signal it was connected to:
    every object is still there, with the signal it had minus the slot of
    the wrapper, every other wrapper and the bodies of the space are
    untouched, and when the wrapper was connected its slot was in the
    object's signal before. No later event puts it back: as long as no new
    wrapper is built at its address, no [onDelete] signal holds a slot for
    it, so no emission calls it. *)
Theorem dtor_unsubscribes (w : World) (h : nat) (wr : ObjectWrapper) :
  WF w -> wrappers w !! h = Some wr ->
  exists w0, ObjectWrapper_dtor h w = Some w0 /\
    wrappers w0 = delete h (wrappers w) /\
    bodies w0 = bodies w /\
    (forall a, objects w0 !! a
               = (λ ob, set_onDelete (filter (λ h', h' ≠ h) (onDelete ob)) ob)
                 <$> objects w !! a) /\
    (forall a, m_delCon wr = Some a ->
       exists ob, objects w !! a = Some ob /\ h ∈ onDelete ob) /\
    (forall a ob, objects w0 !! a = Some ob -> h ∉ onDelete ob) /\
    forall evs w', (forall a, Wrap h a ∉ evs) -> run evs w0 = Some w' ->
      wrappers w' !! h = None /\
      forall a ob, objects w' !! a = Some ob -> h ∉ onDelete ob.
Proof.
  intros Hwf Hw. destruct (dtor_WF _ _ _ Hwf Hw) as (w0 & Hd & Hwf0).
  exists w0. split; [done|].
  pose proof Hd as Hpost. rewrite (dtor_spec _ _ _ Hw) in Hpost.
  injection Hpost as <-.
  assert (Hgone : wrappers
                    (set_wrappers (delete h (wrappers w))
                       (set_objects (unhook h wr (objects w)) w)) !! h = None).
  { destruct w; apply lookup_delete_eq. }
  assert (Hfree : forall w1, WF w1 -> wrappers w1 !! h = None ->
            forall a ob, objects w1 !! a = Some ob -> h ∉ onDelete ob).
  { intros w1 Hwf1 Hn a ob Ha Hin.
    destruct (wf_slot _ Hwf1 _ _ _ Ha Hin) as (wr' & Hwr' & _). congruence. }
  assert (Hkeep : forall a ob, objects w !! a = Some ob -> m_delCon wr ≠ Some a ->
            set_onDelete (filter (λ h', h' ≠ h) (onDelete ob)) ob = ob).
  { intros a ob Ha Hne.
    rewrite filter_all; [by destruct ob|].
    intros x Hx ->.
    destruct (wf_slot _ Hwf _ _ _ Ha Hx) as (wr' & Hwr' & Hc). congruence. }
  split; [by destruct w|]. split; [by destruct w|].
  split.
  { intros a.
    replace (objects (set_wrappers (delete h (wrappers w))
                        (set_objects (unhook h wr (objects w)) w)))
      with (unhook h wr (objects w)) by (by destruct w).
    unfold unhook. destruct (m_delCon wr) as [c|] eqn:Hc.
    - destruct (objects w !! c) as [obc|] eqn:Hobc.
      + destruct (decide (a = c)) as [->|Hac].
        * by rewrite lookup_insert_eq, Hobc.
        * rewrite lookup_insert_ne by done.
          destruct (objects w !! a) as [ob|] eqn:Ha; [|done].
          simpl. f_equal. symmetry. apply (Hkeep a ob Ha). congruence.
      + destruct (objects w !! a) as [ob|] eqn:Ha; [|done].
        simpl. f_equal. symmetry. apply (Hkeep a ob Ha). congruence.
    - destruct (objects w !! a) as [ob|] eqn:Ha; [|done].
      simpl. f_equal. symmetry. by apply (Hkeep a ob Ha). }
  split; [intros a Hc; exact (wf_con _ Hwf _ _ _ Hw Hc)|].
  split; [by apply Hfree|].
  intros evs w' Hn Hrun.
  pose proof (run_absent _ _ _ _ Hwf0 Hgone Hn Hrun) as Habs.
  split; [done|]. apply Hfree; [|done]. by eapply run_WF.
Qed.

(** C4: on a detached wrapper every operation returns without a fault and
    with its neutral result: [IsBody] is false, [GetMoney] is 0,
    [GetLabel] is the empty string, [GetSBody] and [GetDockedWith] are the
    null pointer, and [SetMoney] and the advert operations change nothing.
    The same neutral results are returned on an attached wrapper whose
    object is not of the type the operation asks for. *)
Theorem detached_policy (h : nat) (w : World) (wr : ObjectWrapper) :
  wrappers w !! h = Some wr ->
  (m_obj wr = None ->
     IsBody h w = Some false /\
     GetMoney h w = Some Double.zero /\
     GetLabel h w = Some EmptyString /\
     (forall m, SetMoney h m w = Some w) /\
     (forall lm lr d, SpaceStationAddAdvert h lm lr d w = Some w) /\
     (forall lm lr, SpaceStationRemoveAdvert h lm lr w = Some w) /\
     GetSBody h w = Some None /\
     GetDockedWith h w = Some (None, w)) /\
  (forall a ob, m_obj wr = Some a -> objects w !! a = Some ob ->
     (IsType ob SHIP = false ->
        GetMoney h w = Some Double.zero /\
        (forall m, SetMoney h m w = Some w) /\
        GetDockedWith h w = Some (None, w)) /\
     (IsType ob BODY = false ->
        GetLabel h w = Some EmptyString /\ GetSBody h w = Some None) /\
     (IsType ob SPACESTATION = false ->
        (forall lm lr d, SpaceStationAddAdvert h lm lr d w = Some w) /\
        (forall lm lr, SpaceStationRemoveAdvert h lm lr w = Some w))).
Proof.
  intros Hw. split.
  - intros Hm.
    assert (HIs : forall t, Is t h w = Some false) by (intros t; by eapply Is_detached).
    unfold IsBody, GetMoney, GetLabel, SetMoney, SpaceStationAddAdvert,
      SpaceStationRemoveAdvert, GetSBody, GetDockedWith.
    rewrite !HIs. simpl. repeat split; done.
  - intros a ob Hm Ha.
    assert (HIs : forall t, Is t h w = Some (IsType ob t))
      by (intros t; by eapply Is_attached).
    unfold GetMoney, GetLabel, SetMoney, SpaceStationAddAdvert,
      SpaceStationRemoveAdvert, GetSBody, GetDockedWith.
    rewrite !HIs. simpl.
    repeat split; intros; (destruct (IsType ob _); [done|reflexivity]).
Qed.

End WrapperFacts.

(** ** The serializer and the Lua entry points *)

Section LuaFacts.
Context `{SimCtors}.
Import CStrFacts.

Lemma substring_prefix_inv (p : string) : forall s,
  substring 0 (String.length p) s = p -> exists r, s = (p ++ r)%string.
Proof.
  induction p as [|c p IH]; intros s Hs.
  - by exists s.
  - destruct s as [|c' s]; [done|]. cbn [String.length substring] in Hs.
    injection Hs as -> Hs. destruct (IH _ Hs) as [r ->]. by exists r.
Qed.

Lemma unserialize_wrapper_payload body w :
  UserDataUnserialize (tag_ObjectWrapper ++ body) w =
    '(h, w') ← new_ObjectWrapper
                 (body_at (bodyIndex w) (CInt.to_size_t (CStr.atoi body))) w;
    Some (Returns [LUserdata (UObjectWrapper h)], w').
Proof.
  unfold UserDataUnserialize, CStr.substr.
  change 14%nat with (String.length tag_ObjectWrapper).
  rewrite substring_prefix, String.eqb_refl, substr_from_app. reflexivity.
Qed.

Lemma unserialize_path_payload body w :
  UserDataUnserialize (tag_SBodyPath ++ body) w =
    Some (Returns [LUserdata (USBodyPath (SBodyPath_Unserialize body))], w).
Proof.
  unfold UserDataUnserialize, CStr.substr.
  assert (String.eqb (substring 0 14 (tag_SBodyPath ++ body)) tag_ObjectWrapper = false) as ->.
  { apply String.eqb_neq. intros Heq.
    change 14%nat with (String.length tag_ObjectWrapper) in Heq.
    apply substring_prefix_inv in Heq as [r Hr]. discriminate Hr. }
  change 10%nat with (String.length tag_SBodyPath).
  rewrite substring_prefix, String.eqb_refl, substr_from_app. reflexivity.
Qed.

Lemma unserialize_sysloc_payload body w :
  UserDataUnserialize (tag_SysLoc ++ body) w =
    Some (Returns [LUserdata (USysLoc (SysLoc_Unserialize body))], w).
Proof.
  unfold UserDataUnserialize, CStr.substr.
  assert (String.eqb (substring 0 14 (tag_SysLoc ++ body)) tag_ObjectWrapper = false) as ->.
  { apply String.eqb_neq. intros Heq.
    change 14%nat with (String.length tag_ObjectWrapper) in Heq.
    apply substring_prefix_inv in Heq as [r Hr]. discriminate Hr. }
  assert (String.eqb (substring 0 10 (tag_SysLoc ++ body)) tag_SBodyPath = false) as ->.
  { apply String.eqb_neq. intros Heq.
    change 10%nat with (String.length tag_SBodyPath) in Heq.
    apply substring_prefix_inv in Heq as [r Hr]. discriminate Hr. }
  change 7%nat with (String.length tag_SysLoc).
  rewrite substring_prefix, String.eqb_refl, substr_from_app. reflexivity.
Qed.

Lemma snprintf_fits s : (String.length s <= 127)%nat -> CStr.snprintf 128 s = s.
Proof. intros Hs. unfold CStr.snprintf. by apply substring_all. Qed.

Lemma wrapper_payload_fits n :
  CStr.snprintf 128 (tag_ObjectWrapper ++ CStr.format_d n ++ CStr.nl)
  = (tag_ObjectWrapper ++ CStr.format_d n ++ CStr.nl)%string.
Proof.
  apply snprintf_fits. rewrite !string_length_app.
  pose proof (format_d_length n). change (String.length tag_ObjectWrapper) with 14%nat.
  change (String.length CStr.nl) with 1%nat. lia.
Qed.

Lemma serialize_wrapper h w wr a ob :
  wrappers w !! h = Some wr -> m_obj wr = Some a ->
  objects w !! a = Some ob -> IsType ob BODY = true ->
  UserDataSerialize (LUserdata (UObjectWrapper h)) w =
    Some (Returns [LString (tag_ObjectWrapper
                            ++ CStr.format_d (index_of (bodyIndex w) a) ++ CStr.nl)], w).
Proof.
  intros Hw Hm Ha Hb. unfold UserDataSerialize.
  change (mylua_checkudata (UObjectWrapper h) "ObjectWrapper") with true. cbn iota.
  unfold IsBody. rewrite (Is_attached _ _ _ _ _ _ Hw Hm Ha), Hb. simpl.
  rewrite Hw. simpl. rewrite Hm. simpl. by rewrite wrapper_payload_fits.
Qed.

Lemma new_ObjectWrapper_live a w ob :
  objects w !! a = Some ob ->
  exists h w', new_ObjectWrapper (Some a) w = Some (h, w') /\
    wrappers w !! h = None /\
    wrappers w' = <[h := mkWrapper (Some a) (Some a)]> (wrappers w) /\
    objects w' = <[a := set_onDelete (onDelete ob ++ [h]) ob]> (objects w).
Proof.
  intros Ha. unfold new_ObjectWrapper.
  rewrite (ctor_spec _ _ _ _ Ha). simpl. eexists _, _. split; [done|].
  split; [|done]. apply not_elem_of_dom, is_fresh.
Qed.

Lemma new_ObjectWrapper_fault o w :
  o = None \/ (exists a, o = Some a /\ objects w !! a = None) ->
  new_ObjectWrapper o w = None.
Proof.
  unfold new_ObjectWrapper, ObjectWrapper_ctor, connect.
  intros [->|(a & -> & Ha)]; simpl; [done|]. by rewrite Ha.
Qed.

(** C1: for every supported value [v] (a wrapper attached to a live,
    registered body, a body path or a system location), serializing [v]
    returns a string, and unserializing that string returns a value
    equivalent to [v]: a wrapper attached to the same object, or an equal
    path or location. *)
Theorem UserData_roundtrip (v : LuaValue) (w : World) :
  supported w v ->
  exists s v' w',
    UserDataSerialize v w = Some (Returns [LString s], w) /\
    UserDataUnserialize s w = Some (Returns [v'], w') /\
    equivalent w w' v v'.
Proof.
  intros [h wr a ob Hw Hm Ha Hb [Hrange Hreg] | p Hp | l Hl].
  - destruct (new_ObjectWrapper_live _ _ _ Ha) as (h' & w' & Hnew & Hfree & Hwrs & Hobjs).
    eexists _, (LUserdata (UObjectWrapper h')), w'.
    split; [by eapply serialize_wrapper|]. split.
    + rewrite unserialize_wrapper_payload. unfold CStr.nl.
      rewrite atoi_format_d; [| unfold CInt.in_int, CInt.INT_MIN; lia | reflexivity].
      unfold CInt.to_size_t. rewrite Z.mod_small by (unfold CInt.INT_MAX in Hrange; lia).
      rewrite Hreg, Hnew. reflexivity.
    + exists a. split; [by exists wr|].
      eexists. split; [rewrite Hwrs; apply lookup_insert_eq|done].
  - eexists _, _, w. split; [reflexivity|]. split.
    + apply unserialize_path_payload.
    + simpl. done.
  - eexists _, _, w. split; [reflexivity|]. split.
    + apply unserialize_sysloc_payload.
    + simpl. done.
Qed.

(** C3, what the code does: when the id in an [ObjectWrapper] payload
    resolves to no live object (the lookup gives the null pointer, or an
    address that is not allocated), [UserDataUnserialize] passes the
    result unchecked to the wrapper's constructor, which dereferences it:
    the call faults, and reports no error. *)
Theorem unserialize_unresolved_faults (body : string) (w : World) :
  let b := body_at (bodyIndex w) (CInt.to_size_t (CStr.atoi body)) in
  b = None \/ (exists a, b = Some a /\ objects w !! a = None) ->
  UserDataUnserialize (tag_ObjectWrapper ++ body) w = None.
Proof.
  intros b Hb. rewrite unserialize_wrapper_payload. fold b.
  by rewrite new_ObjectWrapper_fault.
Qed.

Lemma leading_tag_registered s :
  String.eqb (CStr.substr 0 14 s) tag_ObjectWrapper = true \/
  String.eqb (CStr.substr 0 10 s) tag_SBodyPath = true \/
  String.eqb (CStr.substr 0 7 s) tag_SysLoc = true ->
  leading_tag s ∈ registered_tags.
Proof.
  unfold CStr.substr, registered_tags. rewrite !String.eqb_eq.
  intros [Hs|[Hs|Hs]].
  - change 14%nat with (String.length tag_ObjectWrapper) in Hs.
    apply substring_prefix_inv in Hs as [r ->]. set_solver.
  - change 10%nat with (String.length tag_SBodyPath) in Hs.
    apply substring_prefix_inv in Hs as [r ->].
    change (leading_tag (tag_SBodyPath ++ r)) with "SBodyPath". set_solver.
  - change 7%nat with (String.length tag_SysLoc) in Hs.
    apply substring_prefix_inv in Hs as [r ->].
    change (leading_tag (tag_SysLoc ++ r)) with "SysLoc". set_solver.
Qed.

Lemma decode_all_app before : forall after w rs1 w1,
  decode_all before w = Some (rs1, w1) ->
  decode_all (before ++ after)%list w =
    '(rs2, w2) ← decode_all after w1; Some ((rs1 ++ rs2)%list, w2).
Proof.
  induction before as [|p before IH]; intros after w rs1 w1; simpl.
  - intros [= <- <-]. by destruct (decode_all after w) as [[??]|].
  - destruct (UserDataUnserialize p w) as [[r w0]|]; [|done]. simpl.
    destruct (decode_all before w0) as [[rs w0']|] eqn:Hb; [|done]. simpl.
    intros [= <- <-]. rewrite (IH after _ _ _ Hb).
    by destruct (decode_all after w0') as [[??]|].
Qed.

(** C6: a string whose leading tag is none of the registered ones is
    not reported as an error: [UserDataUnserialize] returns normally,
    with no value, and changes nothing, so that in a run over several
    payloads the results of the payloads before and after it, and the
    final state, are what they are without it. *)
Theorem unknown_tag_rejected (str : string) (w : World) :
  leading_tag str ∉ registered_tags ->
  UserDataUnserialize str w = Some (Returns [], w) /\
  forall before after w0 rs1 rs2 w2,
    decode_all before w0 = Some (rs1, w) ->
    decode_all after w = Some (rs2, w2) ->
    decode_all (before ++ str :: after)%list w0
    = Some ((rs1 ++ Returns [] :: rs2)%list, w2).
Proof.
  intros Htag.
  assert (Hdec : forall w, UserDataUnserialize str w = Some (Returns [], w)).
  { intros w1. unfold UserDataUnserialize.
    destruct (String.eqb (CStr.substr 0 14 str) tag_ObjectWrapper) eqn:Ht1.
    { exfalso. apply Htag, leading_tag_registered. auto. }
    destruct (String.eqb (CStr.substr 0 10 str) tag_SBodyPath) eqn:Ht2.
    { exfalso. apply Htag, leading_tag_registered. auto. }
    destruct (String.eqb (CStr.substr 0 7 str) tag_SysLoc) eqn:Ht3.
    { exfalso. apply Htag, leading_tag_registered. auto. }
    done. }
  split; [apply Hdec|].
  intros before after w0 rs1 rs2 w2 Hb Ha.
  rewrite (decode_all_app _ _ _ _ _ Hb). simpl.
  rewrite Hdec. simpl. rewrite Ha. done.
Qed.

(** C7: for a value without codec, [UserDataSerialize] produces no
    payload: it ends in the argument type error when the value is not a
    userdata, and in the engine error [Tried to serialize unknown userdata
    type.] when it is a userdata of another class. *)
Theorem serialize_unsupported (v : LuaValue) (w : World) :
  ~ has_codec v ->
  exists r, UserDataSerialize v w = Some (r, w) /\
    (r = LuaTypeError 1 "userdata" \/
     r = EngineError "Tried to serialize unknown userdata type.") /\
    forall vs, r ≠ Returns vs.
Proof.
  intros Hv. destruct v as [| | | | | |u]; simpl;
    try (eexists; split; [done|]; split; [by left|done]).
  destruct u; simpl in Hv; try tauto;
    (eexists; split; [done|]; split; [by right|done]).
Qed.

(** C9: for a name that is not a key of the ship-type table, [SpawnShip]
    returns nil and the string [Unknown ship type], and the world (its
    bodies included) is unchanged. *)
Theorem SpawnShip_unknown_type (type : string) (due : double) (w : World) :
  shipTypes w !! type = None ->
  SpawnShip type due w = Some (Returns [LNil; LString "Unknown ship type"], w).
Proof. intros Hty. unfold SpawnShip, ShipType_Get. by rewrite Hty. Qed.

(** C5, as the code has it: every payload [UserDataSerialize] returns is
    [tag], a newline and a body, where [tag] is one of [ObjectWrapper],
    [SBodyPath] and [SysLoc] and is the text before the first newline; for
    a wrapper the tag is [ObjectWrapper] and the body is the decimal id of
    the wrapped body followed by a newline, so that the payload for id 0
    is ObjectWrapper, newline, 0, newline. *)
Theorem payload_form (v : LuaValue) (w w' : World) (s : string) :
  UserDataSerialize v w = Some (Returns [LString s], w') ->
  exists tag body,
    payload_parts w v = Some (tag, body) /\
    s = (tag ++ CStr.nl ++ body)%string /\
    tag ∈ registered_tags /\
    leading_tag s = tag /\
    forall h, v = LUserdata (UObjectWrapper h) ->
      tag = "ObjectWrapper" /\
      exists a, attached_to h a w /\
        body = (CStr.format_d (index_of (bodyIndex w) a) ++ CStr.nl)%string /\
        (index_of (bodyIndex w) a = 0 ->
         s = ("ObjectWrapper" ++ CStr.nl ++ "0" ++ CStr.nl)%string).
Proof.
  destruct v as [| | | | | |u]; try done.
  destruct u as [h| | |l|p]; simpl; try done.
  - unfold IsBody. destruct (Is BODY h w) as [[]|]; simpl; try done.
    destruct (wrappers w !! h) as [wr|] eqn:Hw; simpl; [|done].
    destruct (m_obj wr) as [a|] eqn:Hm; simpl; [|done].
    rewrite wrapper_payload_fits. intros [= <- <-].
    eexists _, _. split; [done|]. split; [reflexivity|].
    split; [unfold registered_tags; set_solver|]. split; [reflexivity|].
    intros h' [= <-]. split; [done|]. exists a. split; [by exists wr|].
    split; [done|]. intros ->. reflexivity.
  - intros [= <- <-]. eexists _, _. split; [done|]. split; [reflexivity|].
    split; [unfold registered_tags; set_solver|]. split; [reflexivity|]. done.
  - intros [= <- <-]. eexists _, _. split; [done|]. split; [reflexivity|].
    split; [unfold registered_tags; set_solver|]. split; [reflexivity|]. done.
Qed.

End LuaFacts.

(** ** The entry points keep the invariant *)

Section EntryPointFacts.
Context `{SimCtors}.
Local Open Scope list_scope.

Lemma WF_ext (w w' : World) :
  objects w' = objects w -> wrappers w' = wrappers w -> WF w -> WF w'.
Proof.
  intros Ho Hw [Hrel Hcon Hslot]. split.
  - intros h wr. rewrite Hw. apply Hrel.
  - intros h wr a. rewrite Hw, Ho. apply Hcon.
  - intros a ob h. rewrite Hw, Ho. apply Hslot.
Qed.

Lemma WF_initial (w : World) :
  wrappers w = ∅ ->
  (forall a ob, objects w !! a = Some ob -> onDelete ob = []) ->
  WF w.
Proof.
  intros Hw Ho. split.
  - intros h wr. by rewrite Hw, lookup_empty.
  - intros h wr a. by rewrite Hw, lookup_empty.
  - intros a ob h Ha Hin. rewrite (Ho _ _ Ha) in Hin. by apply not_elem_of_nil in Hin.
Qed.

Lemma new_ObjectWrapper_WF (o : option nat) (w w' : World) (h : nat) :
  WF w -> new_ObjectWrapper o w = Some (h, w') -> WF w'.
Proof.
  intros Hwf. unfold new_ObjectWrapper.
  destruct (ObjectWrapper_ctor _ o w) as [w1|] eqn:Hc; [|done]. simpl.
  intros [= <- <-]. destruct o as [a|]; [|done].
  apply (exec_WF (Wrap (fresh (dom (wrappers w))) a) w w1 Hwf).
  cbn [exec].
  assert (wrappers w !! fresh (dom (wrappers w)) = None) as ->
    by apply not_elem_of_dom, is_fresh.
  done.
Qed.

Lemma new_Object_WF (ob : Object) (w : World) :
  WF w -> WF (new_Object ob w).2.
Proof.
  intros Hwf. apply (exec_WF (Create (fresh (dom (objects w))) ob) w _ Hwf).
  cbn [exec].
  assert (objects w !! fresh (dom (objects w)) = None) as ->
    by apply not_elem_of_dom, is_fresh.
  done.
Qed.

Lemma UserDataUnserialize_WF (str : string) (w w' : World) (r : LuaRet) :
  WF w -> UserDataUnserialize str w = Some (r, w') -> WF w'.
Proof.
  intros Hwf. unfold UserDataUnserialize.
  destruct (String.eqb _ tag_ObjectWrapper).
  { destruct (new_ObjectWrapper _ w) as [[h w1]|] eqn:Hn; [|done]. simpl.
    intros [= <- <-]. by eapply new_ObjectWrapper_WF. }
  destruct (String.eqb _ tag_SBodyPath); [by intros [= <- <-]|].
  destruct (String.eqb _ tag_SysLoc); by intros [= <- <-].
Qed.

Lemma GetPlayer_WF (w w' : World) (r : LuaRet) :
  WF w -> GetPlayer w = Some (r, w') -> WF w'.
Proof.
  intros Hwf. unfold GetPlayer.
  destruct (new_ObjectWrapper _ w) as [[h w1]|] eqn:Hn; [|done]. simpl.
  intros [= <- <-]. by eapply new_ObjectWrapper_WF.
Qed.

Lemma GetDockedWith_WF (h : nat) (w w' : World) (r : option nat) :
  WF w -> GetDockedWith h w = Some (r, w') -> WF w'.
Proof.
  intros Hwf. unfold GetDockedWith.
  destruct (Is SHIP h w) as [[]|]; simpl; [|by intros [= <- <-]|done].
  destruct (deref h w) as [[a s]|]; simpl; [|done].
  destruct (dockedWith s) as [st|]; [|by intros [= <- <-]].
  destruct (new_ObjectWrapper _ w) as [[h1 w1]|] eqn:Hn; [|done]. simpl.
  intros [= <- <-]. by eapply new_ObjectWrapper_WF.
Qed.

Lemma deref_Some (h a : nat) (s : Object) (w : World) :
  deref h w = Some (a, s) -> objects w !! a = Some s.
Proof.
  unfold deref. destruct (wrappers w !! h) as [wr|]; simpl; [|done].
  destruct (m_obj wr) as [a'|]; simpl; [|done].
  destruct (objects w !! a') as [ob|] eqn:Ha; simpl; [|done].
  by intros [= <- <-].
Qed.

Lemma SetMoney_WF (h : nat) (m : double) (w w' : World) :
  WF w -> SetMoney h m w = Some w' -> WF w'.
Proof.
  intros Hwf. unfold SetMoney.
  destruct (Is SHIP h w) as [[]|]; simpl; [|by intros [= <-]|done].
  destruct (deref h w) as [[a s]|] eqn:Hd; simpl; [|done].
  destruct (Double.to_Sint64 _) as [c|]; simpl; [|done].
  intros [= <-]. apply (exec_WF (Mutate a (SetMoney_obj c s)) w _ Hwf).
  cbn [exec]. by rewrite (deref_Some _ _ _ _ Hd).
Qed.

Lemma AddAdvert_WF (h : nat) lm lr d (w w' : World) :
  WF w -> SpaceStationAddAdvert h lm lr d w = Some w' -> WF w'.
Proof.
  intros Hwf. unfold SpaceStationAddAdvert.
  destruct (Is SPACESTATION h w) as [[]|]; simpl; [|by intros [= <-]|done].
  destruct (deref h w) as [[a s]|] eqn:Hd; simpl; [|done].
  intros [= <-].
  apply (exec_WF (Mutate a (set_board (BBAddAdvert (mkBBAdvert lm lr d) (board s)) s))
           w _ Hwf).
  cbn [exec]. by rewrite (deref_Some _ _ _ _ Hd).
Qed.

Lemma RemoveAdvert_WF (h : nat) lm lr (w w' : World) :
  WF w -> SpaceStationRemoveAdvert h lm lr w = Some w' -> WF w'.
Proof.
  intros Hwf. unfold SpaceStationRemoveAdvert.
  destruct (Is SPACESTATION h w) as [[]|]; simpl; [|by intros [= <-]|done].
  destruct (deref h w) as [[a s]|] eqn:Hd; simpl; [|done].
  intros [= <-].
  apply (exec_WF (Mutate a (set_board (BBRemoveAdvert lm lr (board s)) s)) w _ Hwf).
  cbn [exec]. by rewrite (deref_Some _ _ _ _ Hd).
Qed.

Lemma spawn_in_cloud_WF type due pl pos (w w' : World) (r : LuaRet) :
  WF w -> spawn_in_cloud type due pl pos w = Some (r, w') -> WF w'.
Proof.
  intros Hwf. unfold spawn_in_cloud.
  pose proof (new_Object_WF (Ship_new type) w Hwf) as Hwf1.
  destruct (new_Object (Ship_new type) w) as [ship w1]. simpl in Hwf1.
  set (cloud := place _ _ _ _).
  pose proof (new_Object_WF cloud w1 Hwf1) as Hwf2.
  destruct (new_Object cloud w1) as [c w2]. simpl in Hwf2.
  destruct (new_ObjectWrapper _ (AddBody c w2)) as [[h w4]|] eqn:Hn; [|done]. simpl.
  intros [= <- <-]. eapply new_ObjectWrapper_WF; [|done].
  by apply (WF_ext w2).
Qed.

Lemma SpawnShip_WF type due (w w' : World) (r : LuaRet) :
  WF w -> SpawnShip type due w = Some (r, w') -> WF w'.
Proof.
  intros Hwf. unfold SpawnShip.
  destruct (ShipType_Get _ type); [|by intros [= <- <-]].
  destruct (player w) as [p|]; simpl; [|done].
  destruct (objects w !! p) as [pl|]; simpl; [|done].
  destruct (draw3 (rng w)) as [d rg]. cbv zeta.
  assert (Hwf0 : WF (set_rng rg w)) by by apply (WF_ext w).
  destruct (Double.leb due _); [|by apply spawn_in_cloud_WF].
  destruct (negb _); [by intros [= <- <-]|].
  destruct (_ || _); [|by apply spawn_in_cloud_WF].
  set (ship := place _ _ _ _).
  destruct (new_ObjectWrapper _ _) as [[h w3]|] eqn:Hn; [|done]. simpl.
  intros [= <- <-]. eapply new_ObjectWrapper_WF; [|done].
  apply (WF_ext (new_Object ship (set_rng rg w)).2); [done|done|].
  by apply new_Object_WF.
Qed.

End EntryPointFacts.

(** ** More about EquipSet *)

Section MoreEquipFacts.
Context `{EquipDecl}.
Import EquipSet.
Local Open Scope list_scope.

Lemma Remove_loop_spec e v : forall num nd,
  0 <= num <= CInt.INT_MAX -> 0 <= nd ->
  nd + Z.of_nat (length v) <= CInt.INT_MAX ->
  let '(r, n) := Remove_loop e num nd v in
  n = nd + Z.min num (Z.of_nat (occ e v)) /\
  length r = length v /\
  forall i x, v !! i = Some x ->
    r !! i = Some (if decide (x = e)
                   then if Z.of_nat (occ e (take i v)) <? num then NONE else x
                   else x).
Proof.
  induction v as [|x v IH]; intros num nd Hnum Hnd Hb; simpl in *.
  - split; [unfold occ; simpl; lia|]. split; [done|]. intros i x Hx.
    by rewrite lookup_nil in Hx.
  - destruct (num =? 0) eqn:Heq.
    + apply Z.eqb_eq in Heq. subst num. split; [lia|]. split; [done|].
      intros i y Hy. rewrite Hy. f_equal.
      destruct (decide (y = e)); [|done].
      destruct (Z.ltb_spec (Z.of_nat (occ e (take i (x :: v)))) 0); [lia|done].
    + apply Z.eqb_neq in Heq. rewrite occ_cons.
      destruct (decide (x = e)) as [->|Hx].
      * rewrite !to_int_id by (unfold CInt.in_int, CInt.INT_MIN, CInt.INT_MAX in *; lia).
        specialize (IH (num - 1) (nd + 1)).
        destruct (Remove_loop e (num - 1) (nd + 1) v) as [r n].
        destruct IH as (Hn & Hl & Hi); [lia|lia|lia|].
        split; [lia|]. split; [simpl; lia|].
        intros [|i] y Hy; simpl in *.
        -- injection Hy as <-. rewrite decide_True by done.
           unfold occ; simpl. destruct (Z.ltb_spec (Z.of_nat 0) num); [done|lia].
        -- rewrite (Hi _ _ Hy). f_equal. destruct (decide (y = e)); [|done].
           rewrite occ_cons, decide_True by done.
           destruct (Z.ltb_spec (Z.of_nat (occ e (take i v))) (num - 1));
             destruct (Z.ltb_spec (Z.of_nat (S (occ e (take i v)))) num); try done; lia.
      * specialize (IH num nd). destruct (Remove_loop e num nd v) as [r n].
        destruct IH as (Hn & Hl & Hi); [lia|lia|lia|].
        split; [lia|]. split; [simpl; lia|].
        intros [|i] y Hy; simpl in *.
        -- injection Hy as <-. by rewrite decide_False.
        -- rewrite (Hi _ _ Hy). f_equal. destruct (decide (y = e)); [|done].
           by rewrite occ_cons, decide_False.
Qed.

Lemma Remove_unfold (e : Equip_Type) (num : Z) (es : t) :
  let '(r, n) := Remove_loop e num 0 (equip es (EquipType_slot e)) in
  (Remove e num es).1 = n /\
  onChange (Remove e num es).2 = S (onChange es) /\
  forall s0, equip (Remove e num es).2 s0
             = if decide (s0 = EquipType_slot e) then r else equip es s0.
Proof.
  unfold Remove. destruct (Remove_loop e num 0 (equip es (EquipType_slot e))) as [r n].
  done.
Qed.

Lemma held_before_occ e v i :
  Z.of_nat (length v) <= CInt.INT_MAX ->
  held_before e v i = Z.of_nat (occ e (take i v)).
Proof.
  intros Hb. unfold held_before. rewrite Count_loop_spec; [lia|lia|].
  rewrite length_take. lia.
Qed.

(** X1: for [0 <= num], [Remove e num] empties the lowest [min num count]
    slots that hold [e] (a slot holding [e] is emptied if and only if
    fewer than [num] slots holding [e] lie below it), leaves every other
    slot and the other slot arrays as they are, returns [min num count],
    and emits [onChange] once, also when nothing is removed. *)
Theorem Remove_clears_lowest_holders (e : Equip_Type) (num : Z) (es : t) :
  0 <= num <= CInt.INT_MAX ->
  Z.of_nat (length (equip es (EquipType_slot e))) <= CInt.INT_MAX ->
  let s := EquipType_slot e in
  let v := equip es s in
  let v' := equip (Remove e num es).2 s in
  (Remove e num es).1 = Z.min num (Count es s e) /\
  length v' = length v /\
  (forall i x, v !! i = Some x -> x ≠ e -> v' !! i = Some x) /\
  (forall i, v !! i = Some e ->
     v' !! i = Some (if held_before e v i <? num then NONE else e)) /\
  (forall s', s' ≠ s -> equip (Remove e num es).2 s' = equip es s') /\
  onChange (Remove e num es).2 = S (onChange es).
Proof.
  intros Hnum Hb. cbv zeta.
  pose proof (Remove_unfold e num es) as Hu.
  pose proof (Remove_loop_spec e (equip es (EquipType_slot e)) num 0
                Hnum ltac:(lia) ltac:(lia)) as Hloop.
  destruct (Remove_loop e num 0 (equip es (EquipType_slot e))) as [r n].
  destruct Hu as (Hu1 & Hu3 & Hu2). destruct Hloop as (Hn & Hl & Hi).
  rewrite Hu1, !Hu2, decide_True by done.
  assert (Hcount : Count es (EquipType_slot e) e
                   = Z.of_nat (occ e (equip es (EquipType_slot e)))).
  { unfold Count. rewrite Count_loop_spec by lia. lia. }
  rewrite Hcount.
  split; [lia|]. split; [done|]. split; [|split; [|split; [|done]]].
  - intros i x Hx Hne. rewrite (Hi _ _ Hx). by rewrite decide_False.
  - intros i Hx. rewrite (Hi _ _ Hx). rewrite decide_True by done.
    rewrite held_before_occ by done. done.
  - intros s' Hne. rewrite Hu2. by rewrite decide_False.
Qed.

Lemma Add_loop_negative e num v : forall nd,
  num < 0 -> 0 <= nd -> nd + Z.of_nat (length v) <= CInt.INT_MAX ->
  Add_loop e num nd v
  = ((λ x, if decide (x = NONE) then e else x) <$> v, nd + Z.of_nat (occ NONE v)).
Proof.
  induction v as [|x v IH]; intros nd Hnum Hnd Hb; simpl in *.
  - unfold occ. simpl. f_equal. lia.
  - destruct (Z.eqb_spec nd num) as [->|_]; [lia|]. rewrite occ_cons.
    destruct (decide (x = NONE)) as [->|Hx].
    + rewrite to_int_id by (unfold CInt.in_int, CInt.INT_MIN, CInt.INT_MAX in *; lia).
      rewrite IH by lia. f_equal. lia.
    + rewrite IH by lia. done.
Qed.

(** X3: with a negative count, [Add] never reaches [numDone == num]: it
    fills every empty slot with [e] and returns false. *)
Theorem Add_negative_fills_all (e : Equip_Type) (num : Z) (es : t) :
  num < 0 ->
  Z.of_nat (length (equip es (EquipType_slot e))) <= CInt.INT_MAX ->
  let s := EquipType_slot e in
  (Add e num es).1 = false /\
  equip (Add e num es).2 s
  = (λ x, if decide (x = NONE) then e else x) <$> equip es s.
Proof.
  intros Hnum Hb. cbv zeta.
  pose proof (Add_unfold e num es) as Hu.
  rewrite Add_loop_negative in Hu by lia.
  destruct Hu as [Hu1 Hu2]. rewrite Hu1, Hu2, decide_True by done.
  split; [|done]. apply Z.eqb_neq. lia.
Qed.

Lemma Add_loop_counts e num v : forall nd,
  e ≠ NONE -> 0 <= nd <= num -> nd + Z.of_nat (length v) <= CInt.INT_MAX ->
  let r := (Add_loop e num nd v).1 in
  let k := Z.min (num - nd) (Z.of_nat (occ NONE v)) in
  Z.of_nat (occ NONE r) = Z.of_nat (occ NONE v) - k /\
  Z.of_nat (occ e r) = Z.of_nat (occ e v) + k /\
  forall e', e' ≠ e -> e' ≠ NONE -> occ e' r = occ e' v.
Proof.
  intros nd He. revert nd.
  induction v as [|x v IH]; intros nd Hnd Hb; simpl in *.
  - unfold occ. simpl. split; [lia|]. split; [lia|done].
  - destruct (Z.eqb_spec nd num) as [->|Hne]; simpl.
    + split; [lia|]. split; [lia|done].
    + destruct (decide (x = NONE)) as [->|Hx].
      * rewrite to_int_id by (unfold CInt.in_int, CInt.INT_MIN, CInt.INT_MAX in *; lia).
        specialize (IH (nd + 1) ltac:(lia) ltac:(lia)).
        destruct (Add_loop e num (nd + 1) v) as [r n]. simpl in *.
        destruct IH as (IH1 & IH2 & IH3).
        rewrite !occ_cons.
        split; [repeat case_decide; try congruence; lia|].
        split; [repeat case_decide; try congruence; lia|].
        intros e' He' Hn'. rewrite !occ_cons.
        rewrite !decide_False by congruence. by apply IH3.
      * specialize (IH nd ltac:(lia) ltac:(lia)).
        destruct (Add_loop e num nd v) as [r n]. simpl in *.
        destruct IH as (IH1 & IH2 & IH3).
        rewrite !occ_cons.
        split; [repeat case_decide; try congruence; lia|]. split.
        -- repeat case_decide; try congruence; lia.
        -- intros e' He' Hn'. rewrite !occ_cons. rewrite IH3 by done. done.
Qed.

(** X4: for an item [e] other than [NONE] and [0 <= num], [Add e num]
    lowers [FreeSpace] by [k = min num free], raises [Count] of [e] by
    [k], leaves the count of every other item, and emits [onChange] if
    and only if [k] is not 0. *)
Theorem Add_moves_counts (e : Equip_Type) (num : Z) (es : t) :
  e ≠ NONE -> 0 <= num <= CInt.INT_MAX ->
  Z.of_nat (length (equip es (EquipType_slot e))) <= CInt.INT_MAX ->
  let s := EquipType_slot e in
  let es' := (Add e num es).2 in
  let k := Z.min num (FreeSpace es s) in
  FreeSpace es' s = FreeSpace es s - k /\
  Count es' s e = Count es s e + k /\
  (forall e', e' ≠ e -> e' ≠ NONE -> Count es' s e' = Count es s e') /\
  onChange es' = (if k =? 0 then onChange es else S (onChange es)).
Proof.
  intros He Hnum Hb. cbv zeta.
  pose proof (Add_unfold e num es) as Hu.
  pose proof (Add_loop_spec e num (equip es (EquipType_slot e)) 0
                ltac:(lia) ltac:(lia)) as Hloop.
  pose proof (Add_loop_counts e num (equip es (EquipType_slot e)) 0 He
                ltac:(lia) ltac:(lia)) as Hcnt.
  assert (Hemit : onChange (Add e num es).2
            = if (Add_loop e num 0 (equip es (EquipType_slot e))).2 =? 0
              then onChange es else S (onChange es)).
  { unfold Add. destruct (Add_loop e num 0 (equip es (EquipType_slot e))) as [r n].
    simpl. by destruct (n =? 0). }
  destruct (Add_loop e num 0 (equip es (EquipType_slot e))) as [r n].
  destruct Hu as [_ Hu2]. destruct Hloop as (Hn & Hl & _). simpl in Hcnt, Hemit.
  destruct Hcnt as (Hc1 & Hc2 & Hc3).
  unfold FreeSpace, Count. rewrite !Hu2, decide_True by done.
  rewrite !(Count_loop_spec _ r), !(Count_loop_spec _ (equip es _)) by lia.
  rewrite Z.sub_0_r in *. rewrite !Z.add_0_l in *.
  split; [lia|]. split; [lia|]. split.
  - intros e' He' Hn'.
    rewrite !(Count_loop_spec _ r), !(Count_loop_spec _ (equip es _)) by lia.
    by rewrite Hc3.
  - rewrite Hemit, Hn. done.
Qed.

Lemma Remove_loop_all e v : forall num nd,
  0 <= num <= CInt.INT_MAX -> 0 <= nd ->
  nd + Z.of_nat (length v) <= CInt.INT_MAX ->
  Z.of_nat (occ e v) <= num ->
  Remove_loop e num nd v
  = ((λ x, if decide (x = e) then NONE else x) <$> v, nd + Z.of_nat (occ e v)).
Proof.
  induction v as [|x v IH]; intros num nd Hnum Hnd Hb Hocc; simpl in *.
  - unfold occ. simpl. f_equal. lia.
  - rewrite occ_cons in *. destruct (Z.eqb_spec num 0) as [->|Hne].
    + destruct (decide (x = e)); [lia|].
      assert (Hz : occ e v = 0%nat) by lia. rewrite Hz. f_equal; [|lia].
      f_equal. clear -Hz. induction v as [|y v IHv]; [done|].
      rewrite occ_cons in Hz. destruct (decide (y = e)); [done|].
      simpl. rewrite decide_False by done. f_equal. by apply IHv.
    + destruct (decide (x = e)) as [->|Hx].
      * rewrite !to_int_id by (unfold CInt.in_int, CInt.INT_MIN, CInt.INT_MAX in *; lia).
        rewrite IH by lia. f_equal. lia.
      * rewrite IH by lia. done.
Qed.

Lemma Add_loop_undone e num v : forall nd,
  e ≠ NONE -> occ e v = 0%nat ->
  (λ x, if decide (x = e) then NONE else x) <$> (Add_loop e num nd v).1 = v.
Proof.
  induction v as [|x v IH]; intros nd He Hocc; [done|]. cbn [Add_loop].
  rewrite occ_cons in Hocc. destruct (decide (x = e)) as [|Hxe]; [done|].
  assert (Hid : forall l, occ e l = 0%nat ->
            (λ x, if decide (x = e) then NONE else x) <$> l = l).
  { clear. induction l as [|y l IHl]; [done|]. rewrite occ_cons.
    destruct (decide (y = e)); [done|]. intros Hz.
    rewrite fmap_cons, decide_False by done. f_equal. by apply IHl. }
  destruct (nd =? num).
  - cbn [fst]. rewrite fmap_cons, decide_False by done. f_equal. by apply Hid.
  - destruct (decide (x = NONE)) as [->|Hx].
    + specialize (IH (CInt.to_int (nd + 1)) He Hocc).
      destruct (Add_loop e num (CInt.to_int (nd + 1)) v) as [r n]. cbn [fst] in *.
      rewrite fmap_cons, decide_True by done. by rewrite IH.
    + specialize (IH nd He Hocc).
      destruct (Add_loop e num nd v) as [r n]. cbn [fst] in *.
      rewrite fmap_cons, decide_False by done. by rewrite IH.
Qed.

(** X5: for [0 <= num], when the slot array holds no [e] (and [e] is not
    [NONE]), [Remove e num] after [Add e num] returns the number of slots
    [Add] filled and restores every slot array. *)
Theorem Remove_undoes_Add (e : Equip_Type) (num : Z) (es : t) :
  e ≠ NONE -> 0 <= num <= CInt.INT_MAX ->
  Z.of_nat (length (equip es (EquipType_slot e))) <= CInt.INT_MAX ->
  Count es (EquipType_slot e) e = 0 ->
  let es1 := (Add e num es).2 in
  (Remove e num es1).1 = Z.min num (FreeSpace es (EquipType_slot e)) /\
  forall s, equip (Remove e num es1).2 s = equip es s.
Proof.
  intros He Hnum Hb Hcount. cbv zeta.
  assert (Hocc : occ e (equip es (EquipType_slot e)) = 0%nat).
  { unfold Count in Hcount. rewrite Count_loop_spec in Hcount by lia. lia. }
  pose proof (Add_unfold e num es) as Hu.
  pose proof (Add_loop_spec e num (equip es (EquipType_slot e)) 0
                ltac:(lia) ltac:(lia)) as Hloop.
  pose proof (Add_loop_counts e num (equip es (EquipType_slot e)) 0 He
                ltac:(lia) ltac:(lia)) as Hcnt.
  pose proof (Add_loop_undone e num (equip es (EquipType_slot e)) 0 He Hocc) as Hundo.
  destruct (Add_loop e num 0 (equip es (EquipType_slot e))) as [r n].
  destruct Hu as [_ Hu2]. destruct Hloop as (_ & Hl & _).
  simpl in Hcnt, Hundo. destruct Hcnt as (_ & Hc2 & _).
  pose proof (Remove_unfold e num (Add e num es).2) as Hr.
  rewrite Hu2, decide_True in Hr by done.
  rewrite Remove_loop_all in Hr by lia.
  destruct Hr as (Hr1 & _ & Hr2). rewrite Hr1.
  unfold FreeSpace. rewrite Count_loop_spec by lia.
  split; [lia|]. intros s. rewrite Hr2, Hu2.
  case_decide; [|done]. subst s. exact Hundo.
Qed.

(** X6: for an index within the slot array, [Set(s, idx, e)] makes
    [Get(s, idx)] answer [e], changes no other slot, keeps the slot size
    and emits [onChange] once. *)
Theorem Set_at_then_Get_at (s : Equip_Slot) (idx : nat) (e : Equip_Type) (es : t) :
  (idx < length (equip es s))%nat ->
  exists es', Set_at s idx e es = Some es' /\
    Get_at es' s idx = Some e /\
    (forall j, j ≠ idx -> Get_at es' s j = Get_at es s j) /\
    (forall s' j, s' ≠ s -> Get_at es' s' j = Get_at es s' j) /\
    GetSlotSize es' s = GetSlotSize es s /\
    onChange es' = S (onChange es).
Proof.
  intros Hidx. unfold Set_at. rewrite decide_True by done.
  eexists. split; [done|]. unfold Get_at, GetSlotSize. simpl.
  rewrite !decide_True by done. split; [by apply list_lookup_insert_eq|].
  split; [intros j Hj; by apply list_lookup_insert_ne|].
  split; [|by rewrite length_insert].
  intros s' j Hs. by rewrite decide_False.
Qed.

Lemma Remove_loop_negative e v : forall num nd,
  num < 0 -> CInt.INT_MIN <= num - Z.of_nat (length v) -> 0 <= nd ->
  nd + Z.of_nat (length v) <= CInt.INT_MAX ->
  Remove_loop e num nd v
  = ((λ x, if decide (x = e) then NONE else x) <$> v, nd + Z.of_nat (occ e v)).
Proof.
  induction v as [|x v IH]; intros num nd Hnum Hlow Hnd Hb; simpl in *.
  - unfold occ. simpl. f_equal. lia.
  - destruct (Z.eqb_spec num 0) as [->|_]; [lia|]. rewrite occ_cons.
    destruct (decide (x = e)) as [->|Hx].
    + rewrite !to_int_id by (unfold CInt.in_int, CInt.INT_MIN, CInt.INT_MAX in *; lia).
      rewrite IH by lia. f_equal. lia.
    + rewrite IH by lia. done.
Qed.

(** X2: with a negative count, [Remove] never reaches [num == 0]: it
    empties every slot that holds [e] and returns their number. *)
Theorem Remove_negative_clears_all (e : Equip_Type) (num : Z) (es : t) :
  num < 0 ->
  CInt.INT_MIN <= num - Z.of_nat (length (equip es (EquipType_slot e))) ->
  Z.of_nat (length (equip es (EquipType_slot e))) <= CInt.INT_MAX ->
  let s := EquipType_slot e in
  (Remove e num es).1 = Count es s e /\
  equip (Remove e num es).2 s
  = (λ x, if decide (x = e) then NONE else x) <$> equip es s.
Proof.
  intros Hnum Hlow Hb. cbv zeta.
  pose proof (Remove_unfold e num es) as Hu.
  rewrite Remove_loop_negative in Hu by lia.
  destruct Hu as (Hu1 & _ & Hu2). rewrite Hu1, Hu2, decide_True by done.
  split; [|done]. unfold Count. rewrite Count_loop_spec by lia. done.
Qed.
End MoreEquipFacts.

(** ** More about ObjectWrapper *)

Section MoreWrapperFacts.
Context `{EquipDecl} `{SimTypes}.
Implicit Types (w : World) (h a : nat).
Local Open Scope list_scope.

(** X7: [OnDelete] detaches the wrapper, and a second [OnDelete] on the
    detached wrapper changes nothing. *)
Theorem OnDelete_idempotent (h : nat) (w : World) (wr : ObjectWrapper) :
  wrappers w !! h = Some wr ->
  exists w1, OnDelete h w = Some w1 /\ detached h w1 /\ OnDelete h w1 = Some w1.
Proof.
  intros Hw. eexists. split; [by apply OnDelete_spec|].
  split; [eexists; split; [apply lookup_insert_eq|done]|].
  erewrite OnDelete_spec by apply lookup_insert_eq.
  destruct w as [objs wrs bs pl gt sb rg sts bi]. unfold unhook at 1.
  cbn. unfold set_wrappers, set_objects. cbn. by rewrite insert_insert_eq.
Qed.

(** X8: an emission of [onDelete] on the object at [a] succeeds although
    every slot disconnects itself while it runs; it leaves the signal of
    [a] empty, detaches every wrapper attached to [a], and leaves the
    wrappers attached to other objects, the detached wrappers and the
    other objects as they are. *)
Theorem emit_detaches_all (a : nat) (w : World) (ob : Object) :
  WF w -> objects w !! a = Some ob ->
  exists w', emit_onDelete a w = Some w' /\ WF w' /\
    (exists ob', objects w' !! a = Some ob' /\ onDelete ob' = []) /\
    (forall h, attached_to h a w -> detached h w') /\
    (forall h b, b ≠ a -> attached_to h b w -> attached_to h b w') /\
    (forall h, detached h w -> detached h w') /\
    (forall a', a' ≠ a -> objects w' !! a' = objects w !! a').
Proof.
  intros Hwf Ha. unfold emit_onDelete. rewrite Ha. cbn.
  destruct (emit_slots_spec a (onDelete ob) w ob Hwf Ha)
    as (w' & Hrun & Hwf' & (ob' & Hob' & Hdel) & Hoth & Hwrs).
  exists w'. split; [done|]. split; [done|]. split; [|split; [|split; [|split]]].
  - exists ob'. split; [done|]. rewrite Hdel. apply filter_none. intros x Hx Hn. done.
  - intros h (wr & Hw & Hm). exists (notified a (onDelete ob) h wr).
    split; [by rewrite Hwrs, Hw|].
    assert (Hd : m_delCon wr = Some a) by (rewrite <- Hm; symmetry; exact (wf_rel _ Hwf _ _ Hw)).
    destruct (wf_con _ Hwf _ _ _ Hw Hd) as (ob2 & Hob2 & Hin).
    rewrite Ha in Hob2. injection Hob2 as <-.
    by rewrite notified_hit.
  - intros h b Hne (wr & Hw & Hm). exists wr. split; [|done].
    rewrite Hwrs, Hw. cbn. f_equal. unfold notified. rewrite decide_False; [done|].
    intros [Hd _]. rewrite <- (wf_rel _ Hwf _ _ Hw), Hm in Hd. congruence.
  - intros h (wr & Hw & Hm). exists wr. split; [|done].
    rewrite Hwrs, Hw. cbn. f_equal. unfold notified. rewrite decide_False; [done|].
    intros [Hd _]. rewrite <- (wf_rel _ Hwf _ _ Hw), Hm in Hd. congruence.
  - done.
Qed.

Lemma new_ObjectWrapper_spec (a : nat) (w : World) (ob : Object) :
  objects w !! a = Some ob ->
  let h := fresh (dom (wrappers w)) in
  wrappers w !! h = None /\
  new_ObjectWrapper (Some a) w =
    Some (h, set_wrappers (<[h := mkWrapper (Some a) (Some a)]> (wrappers w))
               (set_objects (<[a := set_onDelete (onDelete ob ++ [h]) ob]> (objects w)) w)).
Proof.
  intros Ha h. split; [apply not_elem_of_dom, is_fresh|].
  unfold new_ObjectWrapper. fold h. by rewrite (ctor_spec _ _ _ _ Ha).
Qed.

Lemma GetDockedWith_on_ship (h a : nat) (w : World) (wr : ObjectWrapper) (s : Object) :
  wrappers w !! h = Some wr -> m_obj wr = Some a ->
  objects w !! a = Some s -> IsType s SHIP = true ->
  GetDockedWith h w =
    match dockedWith s with
    | Some st => '(h', w') ← new_ObjectWrapper (Some st) w; Some (Some h', w')
    | None => Some (None, w)
    end.
Proof.
  intros Hw Hm Ha Hship.
  assert (Hd : deref h w = Some (a, s)).
  { unfold deref. rewrite Hw. cbn. rewrite Hm. cbn. by rewrite Ha. }
  unfold GetDockedWith. rewrite (Is_attached _ _ _ _ _ _ Hw Hm Ha), Hship. cbn.
  rewrite Hd. reflexivity.
Qed.

(** X9: on a wrapper attached to a ship, [GetDockedWith] returns the null
    pointer and changes nothing when the ship is not docked; when it is
    docked at a live station it returns a new wrapper, at an address not
    in use, attached to the station with a connection of its own, and
    leaves every existing wrapper (the ship's included) as it is. *)
Theorem GetDockedWith_makes_own_wrapper (h a : nat) (w : World) (s : Object) :
  WF w -> attached_to h a w -> objects w !! a = Some s -> IsType s SHIP = true ->
  (dockedWith s = None -> GetDockedWith h w = Some (None, w)) /\
  (forall st sto, dockedWith s = Some st -> objects w !! st = Some sto ->
     exists h' w', GetDockedWith h w = Some (Some h', w') /\
       wrappers w !! h' = None /\ h' ≠ h /\
       attached_to h' st w' /\ attached_to h a w' /\
       (forall h0 wr, wrappers w !! h0 = Some wr -> wrappers w' !! h0 = Some wr) /\
       WF w').
Proof.
  intros Hwf (wr & Hw & Hm) Ha Hship.
  rewrite (GetDockedWith_on_ship _ _ _ _ _ Hw Hm Ha Hship). split.
  - by intros ->.
  - intros st sto -> Hst.
    destruct (new_ObjectWrapper_spec st w sto Hst) as [Hfree Hnew].
    rewrite Hnew. cbn. eexists _, _. split; [done|]. split; [done|].
    assert (Hne : fresh (dom (wrappers w)) ≠ h) by congruence.
    split; [done|]. split; [|split; [|split]].
    + eexists. split; [apply lookup_insert_eq|done].
    + exists wr. split; [|done]. cbn. by rewrite lookup_insert_ne.
    + intros h0 wr0 Hw0. cbn. rewrite lookup_insert_ne; [done|congruence].
    + eapply new_ObjectWrapper_WF; [|done]. done.
Qed.
End MoreWrapperFacts.

Section MoreWrapperFacts2.
Context `{EquipDecl} `{SimTypes}.
Local Open Scope list_scope.

(** X10: on a wrapper attached to a ship, [SetMoney m] stores
    [(Sint64)(m * 100.0)] in the ship and nothing else (no other object,
    no wrapper, no body of the space changes), and [GetMoney] then
    returns 0.01 times the stored amount. *)
Theorem SetMoney_then_GetMoney (h a : nat) (m : double) (c : Z) (w : World)
    (s : Object) :
  attached_to h a w -> objects w !! a = Some s -> IsType s SHIP = true ->
  Double.to_Sint64 (Double.mul m Double.lit_100) = Some c ->
  exists w', SetMoney h m w = Some w' /\
    GetMoney h w' = Some (Double.mul Double.lit_0_01 (Double.of_Z c)) /\
    objects w' = <[a := SetMoney_obj c s]> (objects w) /\
    wrappers w' = wrappers w /\
    bodies w' = bodies w.
Proof.
  intros (wr & Hw & Hm) Ha Hship Hc.
  assert (Hd : deref h w = Some (a, s)).
  { unfold deref. rewrite Hw. cbn. rewrite Hm. cbn. by rewrite Ha. }
  unfold SetMoney. rewrite (Is_attached _ _ _ _ _ _ Hw Hm Ha), Hship.
  cbn [mbind option_bind]. rewrite Hd. cbn [mbind option_bind]. rewrite Hc.
  cbn [mbind option_bind]. eexists. split; [done|].
  split; [|done].
  set (w' := set_objects _ w).
  assert (Ha' : objects w' !! a = Some (SetMoney_obj c s)) by apply lookup_insert_eq.
  assert (Hw' : wrappers w' !! h = Some wr) by done.
  unfold GetMoney. rewrite (Is_attached _ _ _ _ _ _ Hw' Hm Ha').
  cbn [mbind option_bind IsType SetMoney_obj]. rewrite Hship.
  unfold deref. rewrite Hw'. cbn [mbind option_bind]. rewrite Hm.
  cbn [mbind option_bind]. rewrite Ha'. done.
Qed.

End MoreWrapperFacts2.

Section MoreLuaFacts.
Context `{SimCtors}.
Import CStrFacts.

(** X11: every entry point that returns keeps the invariant of wrappers
    and signals: [GetPlayer], [UserDataUnserialize], [UserDataSerialize],
    [SpawnShip], [GetDockedWith], [SetMoney] and the two advert
    operations. *)
Theorem entry_points_keep_WF (w : World) :
  WF w ->
  (forall r w', GetPlayer w = Some (r, w') -> WF w') /\
  (forall str r w', UserDataUnserialize str w = Some (r, w') -> WF w') /\
  (forall v r w', UserDataSerialize v w = Some (r, w') -> WF w') /\
  (forall type due r w', SpawnShip type due w = Some (r, w') -> WF w') /\
  (forall h r w', GetDockedWith h w = Some (r, w') -> WF w') /\
  (forall h m w', SetMoney h m w = Some w' -> WF w') /\
  (forall h lm lr d w', SpaceStationAddAdvert h lm lr d w = Some w' -> WF w') /\
  (forall h lm lr w', SpaceStationRemoveAdvert h lm lr w = Some w' -> WF w').
Proof.
  intros Hwf. split_and!.
  - intros r w'. by apply GetPlayer_WF.
  - intros str r w'. by apply UserDataUnserialize_WF.
  - intros v r w' Hs.
    assert (w' = w) as ->; [|done].
    destruct v as [| | | | | |u]; try (by injection Hs as _ <-).
    destruct u as [h| | |l|p]; cbn in Hs; try (by injection Hs as _ <-).
    unfold IsBody in Hs. destruct (Is BODY h w) as [[]|]; cbn in Hs; try done.
    destruct (wrappers w !! h) as [wr|]; cbn in Hs; [|done].
    destruct (m_obj wr); cbn in Hs; [|done]. by injection Hs as _ <-.
  - intros type due r w'. by apply SpawnShip_WF.
  - intros h r w'. by apply GetDockedWith_WF.
  - intros h m w'. by apply SetMoney_WF.
  - intros h lm lr d w'. by apply AddAdvert_WF.
  - intros h lm lr w'. by apply RemoveAdvert_WF.
Qed.

(** X12: when the player is a live object, [GetPlayer] returns a new
    wrapper, at an address not in use, attached to the player, and leaves
    the existing wrappers and the bodies of the space as they are. *)
Theorem GetPlayer_wraps_player (p : nat) (w : World) (ob : Object) :
  player w = Some p -> objects w !! p = Some ob ->
  exists h w', GetPlayer w = Some (Returns [LUserdata (UObjectWrapper h)], w') /\
    wrappers w !! h = None /\
    attached_to h p w' /\
    (forall h0 wr, wrappers w !! h0 = Some wr -> wrappers w' !! h0 = Some wr) /\
    bodies w' = bodies w.
Proof.
  intros Hp Hob. unfold GetPlayer. rewrite Hp.
  destruct (new_ObjectWrapper_spec p w ob Hob) as [Hfree Hnew].
  rewrite Hnew. cbn. eexists _, _. split; [done|]. split; [done|].
  split; [eexists; split; [apply lookup_insert_eq|done]|]. split; [|done].
  intros h0 wr0 Hw0. cbn. rewrite lookup_insert_ne; [done|congruence].
Qed.

(** X13: [UserDataSerialize] on a wrapper returns a payload, and leaves
    the world as it is, when the wrapper is attached to a live object of
    type [BODY]; in every other case (detached wrapper, object of another
    type, wrapper or object not allocated) it trips its assertion or
    faults. *)
Theorem serialize_wrapper_cases (h : nat) (w : World) :
  let live_body := exists a ob, attached_to h a w /\ objects w !! a = Some ob /\
                                IsType ob BODY = true in
  (live_body ->
     exists s, UserDataSerialize (LUserdata (UObjectWrapper h)) w
               = Some (Returns [LString s], w)) /\
  (~ live_body -> UserDataSerialize (LUserdata (UObjectWrapper h)) w = None).
Proof.
  cbv zeta. split.
  - intros (a & ob & (wr & Hw & Hm) & Ha & Hb).
    eexists. by eapply serialize_wrapper.
  - intros Hn. cbn. unfold IsBody, Is.
    destruct (wrappers w !! h) as [wr|] eqn:Hw; cbn; [|done].
    destruct (m_obj wr) as [a|] eqn:Hm; cbn; [|done].
    destruct (objects w !! a) as [ob|] eqn:Ha; cbn; [|done].
    destruct (IsType ob BODY) eqn:Hb; [|done].
    exfalso. apply Hn. exists a, ob. split; [by exists wr|done].
Qed.

(** X14: unserializing one [ObjectWrapper] payload twice gives two
    wrappers at two different addresses, both new, both attached to the
    same object, each with a slot of its own in the object's signal. *)
Theorem unserialize_twice_distinct (body : string) (a : nat) (w : World)
    (ob : Object) :
  body_at (bodyIndex w) (CInt.to_size_t (CStr.atoi body)) = Some a ->
  objects w !! a = Some ob ->
  exists h1 w1 h2 w2,
    UserDataUnserialize (tag_ObjectWrapper ++ body) w
      = Some (Returns [LUserdata (UObjectWrapper h1)], w1) /\
    UserDataUnserialize (tag_ObjectWrapper ++ body) w1
      = Some (Returns [LUserdata (UObjectWrapper h2)], w2) /\
    h1 ≠ h2 /\ wrappers w !! h1 = None /\ wrappers w !! h2 = None /\
    attached_to h1 a w2 /\ attached_to h2 a w2 /\
    objects w2 !! a = Some (set_onDelete ((onDelete ob ++ [h1]) ++ [h2])%list ob).
Proof.
  intros Hb Ha.
  destruct (new_ObjectWrapper_spec a w ob Ha) as [Hfree1 Hnew1].
  set (h1 := fresh (dom (wrappers w))) in *.
  set (w1 := set_wrappers _ _) in Hnew1.
  assert (Ha1 : objects w1 !! a = Some (set_onDelete (onDelete ob ++ [h1])%list ob))
    by apply lookup_insert_eq.
  destruct (new_ObjectWrapper_spec a w1 _ Ha1) as [Hfree2 Hnew2].
  set (h2 := fresh (dom (wrappers w1))) in *.
  assert (Hne : h1 ≠ h2).
  { intros Heq. rewrite <- Heq in Hfree2. subst w1. cbn in Hfree2.
    by rewrite lookup_insert_eq in Hfree2. }
  exists h1, w1, h2. eexists. split; [|split].
  - rewrite unserialize_wrapper_payload, Hb, Hnew1. done.
  - rewrite unserialize_wrapper_payload.
    replace (bodyIndex w1) with (bodyIndex w) by done.
    rewrite Hb, Hnew2. done.
  - split; [done|]. split; [done|]. split.
    { subst w1. cbn in Hfree2. rewrite lookup_insert_ne in Hfree2; done. }
    split; [|split].
    + exists (mkWrapper (Some a) (Some a)). split; [|done]. cbn.
      rewrite lookup_insert_ne by done. apply lookup_insert_eq.
    + eexists. split; [apply lookup_insert_eq|done].
    + cbn. rewrite lookup_insert_eq. done.
Qed.

(** X15: an [ObjectWrapper] payload whose body is empty, or begins with
    a character that is neither a digit, a space nor a sign, is read by
    [atoi] as id 0: it unserializes exactly as the payload with body 0
    does. *)
Theorem unserialize_without_number_reads_zero (body : string) (w : World) :
  (body = EmptyString \/
   exists c rest, body = String c rest /\ CStr.isdigit c = false /\
     CStr.isspace c = false /\ c ≠ "-"%char /\ c ≠ "+"%char) ->
  UserDataUnserialize (tag_ObjectWrapper ++ body) w
  = UserDataUnserialize (tag_ObjectWrapper ++ "0") w.
Proof.
  intros Hbody. rewrite !unserialize_wrapper_payload.
  assert (Hz : CStr.atoi body = 0).
  { destruct Hbody as [->|(c & rest & -> & Hd & Hs & Hm & Hp)]; [done|].
    unfold CStr.atoi, CStr.strtol10. cbn [CStr.skip_space]. rewrite Hs.
    apply Ascii.eqb_neq in Hm, Hp. rewrite Hm, Hp.
    cbn [CStr.parse_digits]. rewrite Hd. done. }
  rewrite Hz. done.
Qed.

End MoreLuaFacts.

(** ** More about SpawnShip *)

Section SpawnFacts.
Context `{SimCtors}.
Local Open Scope list_scope.





End SpawnFacts.

(** * The properties at work on the sample universe *)

#[local] Existing Instance Sample.equip_decl.
#[local] Existing Instance Sample.sim_types.
#[local] Existing Instance Sample.sim_ctors.

Lemma world1_WF : WF Sample.world1.
Proof.
  split; cbn [Sample.world1 wrappers objects].
  - intros h wr Hw. apply lookup_singleton_Some in Hw as [_ <-]. done.
  - intros h wr a Hw Hd. apply lookup_singleton_Some in Hw as [<- <-].
    injection Hd as <-. eexists. split; [apply lookup_singleton_eq|]. simpl. set_solver.
  - intros a ob h Ha Hin. apply lookup_singleton_Some in Ha as [<- <-].
    simpl in Hin. apply list_elem_of_singleton in Hin as ->.
    eexists. split; [apply lookup_singleton_eq|done].
Qed.

Lemma world0_WF : WF Sample.world0.
Proof.
  split; cbn [Sample.world0 wrappers objects].
  - intros h wr Hw. by rewrite lookup_empty in Hw.
  - intros h wr a Hw. by rewrite lookup_empty in Hw.
  - intros a ob h Ha Hin. apply lookup_singleton_Some in Ha as [<- <-].
    simpl in Hin. by apply not_elem_of_nil in Hin.
Qed.

Example sample_sysloc_reads_back :
  SysLoc_Unserialize (SysLoc_Serialize (mkSysLoc 3 (-4) 7)) = mkSysLoc 3 (-4) 7.
Proof. reflexivity. Qed.

Lemma UserData_roundtrip_witness :
  exists s v' w',
    UserDataSerialize (LUserdata (UObjectWrapper 1%nat)) Sample.world1
      = Some (Returns [LString s], Sample.world1) /\
    UserDataUnserialize s Sample.world1 = Some (Returns [v'], w') /\
    equivalent Sample.world1 w' (LUserdata (UObjectWrapper 1%nat)) v'.
Proof.
  apply UserData_roundtrip.
  apply (supported_wrapper _ 1%nat (mkWrapper (Some 10%nat) (Some 10%nat))
           10%nat (Sample.ship [1%nat])); try reflexivity.
  split; [split; discriminate|reflexivity].
Defined.

Lemma handle_lifecycle_witness :
  exists w0, ObjectWrapper_ctor 1%nat (Some 10%nat) Sample.world0 = Some w0 /\
             attached_to 1%nat 10%nat w0.
Proof.
  destruct (handle_lifecycle Sample.world0 1%nat 10%nat (Sample.ship [])
              world0_WF eq_refl eq_refl) as (w0 & Hctor & Hlive & _).
  exists w0. split; assumption.
Defined.

Lemma unserialize_unresolved_faults_witness :
  UserDataUnserialize (tag_ObjectWrapper ++ "7" ++ CStr.nl) Sample.world1 = None.
Proof.
  apply (unserialize_unresolved_faults ("7" ++ CStr.nl) Sample.world1).
  left. reflexivity.
Defined.

Lemma detached_policy_witness :
  GetMoney 1%nat Sample.world2 = Some Double.zero /\
  GetLabel 1%nat Sample.world2 = Some EmptyString.
Proof.
  destruct (detached_policy 1%nat Sample.world2 (mkWrapper None None) eq_refl)
    as [Hdet _].
  destruct (Hdet eq_refl) as (_ & Hmoney & Hlabel & _).
  split; assumption.
Defined.

Lemma payload_form_witness :
  exists tag body,
    payload_parts Sample.world1 (LUserdata (UObjectWrapper 1%nat)) = Some (tag, body) /\
    ("ObjectWrapper" ++ CStr.nl ++ "0" ++ CStr.nl)%string = (tag ++ CStr.nl ++ body)%string.
Proof.
  destruct (payload_form (LUserdata (UObjectWrapper 1%nat)) Sample.world1 Sample.world1
              ("ObjectWrapper" ++ CStr.nl ++ "0" ++ CStr.nl) eq_refl)
    as (tag & body & Hparts & Hs & _).
  exists tag, body. split; assumption.
Defined.

(** The payload of the wrapper whose body has id 0 is not the string
    EntityRef, newline, 0. *)
Lemma first_payload_is_not_EntityRef :
  UserDataSerialize (LUserdata (UObjectWrapper 1%nat)) Sample.world1
    = Some (Returns [LString ("ObjectWrapper" ++ CStr.nl ++ "0" ++ CStr.nl)],
            Sample.world1) /\
  index_of (bodyIndex Sample.world1) 10%nat = 0 /\
  ("ObjectWrapper" ++ CStr.nl ++ "0" ++ CStr.nl)%string
    <> ("EntityRef" ++ CStr.nl ++ "0")%string.
Proof. split; [reflexivity|]. split; [reflexivity|discriminate]. Qed.

Lemma unknown_tag_rejected_witness :
  UserDataUnserialize ("Bogus" ++ CStr.nl ++ "xyz") Sample.world1
    = Some (Returns [], Sample.world1).
Proof.
  apply (unknown_tag_rejected ("Bogus" ++ CStr.nl ++ "xyz") Sample.world1).
  unfold registered_tags. intros Hin.
  repeat (apply elem_of_cons in Hin as [Hin|Hin]; [discriminate Hin|]).
  by apply not_elem_of_nil in Hin.
Defined.

(** The payload Bogus, newline, xyz has no registered tag, and decoding it
    does not fail: the call returns normally, which no error result
    does. *)
Lemma bogus_tag_is_no_failure :
  (leading_tag ("Bogus" ++ CStr.nl ++ "xyz") ∉ registered_tags) /\
  (exists r, UserDataUnserialize ("Bogus" ++ CStr.nl ++ "xyz") Sample.world1
             = Some (r, Sample.world1) /\
             r = Returns [] /\
             ~ (forall vs, r <> Returns vs)).
Proof.
  split.
  - unfold registered_tags. intros Hin.
    repeat (apply elem_of_cons in Hin as [Hin|Hin]; [discriminate Hin|]).
    by apply not_elem_of_nil in Hin.
  - exists (Returns []). split; [reflexivity|]. split; [reflexivity|].
    intros Hfail. exact (Hfail [] eq_refl).
Qed.

Lemma serialize_unsupported_witness :
  exists r, UserDataSerialize (LUserdata USoundEvent) Sample.world1
            = Some (r, Sample.world1) /\
            forall vs, r <> Returns vs.
Proof.
  destruct (serialize_unsupported (LUserdata USoundEvent) Sample.world1 (fun x => x))
    as (r & Hr & _ & Hn).
  exists r. split; assumption.
Defined.

Lemma SpawnShip_unknown_type_witness :
  SpawnShip "Ladybird" Double.zero Sample.world1
    = Some (Returns [LNil; LString "Unknown ship type"], Sample.world1).
Proof. apply SpawnShip_unknown_type. reflexivity. Defined.

Lemma dtor_unsubscribes_witness :
  exists w0, ObjectWrapper_dtor 1%nat Sample.world1 = Some w0 /\
             wrappers w0 !! 1%nat = None /\
             objects w0 !! 10%nat = Some (Sample.ship []) /\
             bodies w0 = [10%nat].
Proof.
  destruct (dtor_unsubscribes Sample.world1 1%nat _ world1_WF eq_refl)
    as (w0 & Hd & Hwr & Hbodies & Hobj & _).
  exists w0. split; [exact Hd|]. split; [|split].
  - rewrite Hwr. reflexivity.
  - rewrite Hobj. reflexivity.
  - exact Hbodies.
Defined.

Lemma Add_fills_lowest_empty_slots_witness :
  (@EquipSet.Add Sample.equip_decl 2%nat 2 Sample.equipment).1 = true <->
  2 <= @EquipSet.FreeSpace Sample.equip_decl Sample.equipment true.
Proof.
  destruct (@Add_fills_lowest_empty_slots Sample.equip_decl 2%nat 2 Sample.equipment)
    as [Hret _].
  - split; discriminate.
  - discriminate.
  - exact Hret.
Defined.

Example Add_on_sample :
  EquipSet.equip (@EquipSet.Add Sample.equip_decl 2%nat 2 Sample.equipment).2 true
  = [2; 5; 2; 0]%nat.
Proof. reflexivity. Qed.

Example Add_too_many_on_sample :
  @EquipSet.Add Sample.equip_decl 2%nat 5 Sample.equipment
  = (false, EquipSet.emit
              (@EquipSet.set_vec Sample.equip_decl true [2; 5; 2; 2]%nat
                 Sample.equipment)).
Proof. reflexivity. Qed.

Example format_d_samples :
  CStr.format_d 0 = "0" /\ CStr.format_d (-2147483648) = "-2147483648" /\
  CStr.atoi "  -42abc" = -42.
Proof. repeat split; reflexivity. Qed.

Example lit_0_01_is_nearest :
  SFdiv Double.prec Double.emax (Double.of_Z 1) (Double.of_Z 100)
  = Double.lit_0_01.
Proof. reflexivity. Qed.

Example GetMoney_on_sample :
  GetMoney 1%nat Sample.world1
  = Some (Double.mul Double.lit_0_01 (Double.of_Z 12345)).
Proof. reflexivity. Qed.

(** The payload format of the design document is not one the code
    reads. *)
Example EntityRef_payload_not_read :
  UserDataUnserialize ("EntityRef" ++ CStr.nl ++ "0") Sample.world1
  = Some (Returns [], Sample.world1).
Proof. reflexivity. Qed.

(** ** The further properties at work *)

Lemma harbour_WF (b : bool) : WF (Harbour.world b).
Proof.
  split; cbn [Harbour.world wrappers objects].
  - intros h wr Hw. apply lookup_singleton_Some in Hw as [_ <-]. done.
  - intros h wr a Hw Hd. apply lookup_singleton_Some in Hw as [<- <-].
    injection Hd as <-. eexists. split; [apply lookup_insert_eq|]. simpl. set_solver.
  - intros a ob h Ha Hin. apply lookup_insert_Some in Ha as [[<- <-]|[_ Ha]].
    + simpl in Hin. apply list_elem_of_singleton in Hin as ->.
      eexists. split; [apply lookup_singleton_eq|done].
    + apply lookup_singleton_Some in Ha as [<- <-].
      simpl in Hin. by apply not_elem_of_nil in Hin.
Qed.

Lemma Remove_clears_lowest_holders_witness :
  (@EquipSet.Remove Sample.equip_decl 2%nat 2 Harbour.hold).1 = 2 /\
  EquipSet.equip (@EquipSet.Remove Sample.equip_decl 2%nat 2 Harbour.hold).2 true
    !! 3%nat = Some 2%nat.
Proof.
  destruct (@Remove_clears_lowest_holders Sample.equip_decl 2%nat 2 Harbour.hold)
    as (Hret & _ & _ & Hheld & _).
  - split; discriminate.
  - discriminate.
  - split; [exact Hret|]. exact (Hheld 3%nat eq_refl).
Defined.

Lemma Remove_negative_clears_all_witness :
  (@EquipSet.Remove Sample.equip_decl 2%nat (-1) Harbour.hold).1 = 3 /\
  EquipSet.equip (@EquipSet.Remove Sample.equip_decl 2%nat (-1) Harbour.hold).2 true
  = [0; 0; 0; 0]%nat.
Proof.
  destruct (@Remove_negative_clears_all Sample.equip_decl 2%nat (-1) Harbour.hold)
    as [Hret Heq].
  - reflexivity.
  - discriminate.
  - discriminate.
  - split; [exact Hret|exact Heq].
Defined.

Lemma Add_negative_fills_all_witness :
  (@EquipSet.Add Sample.equip_decl 2%nat (-1) Sample.equipment).1 = false /\
  EquipSet.equip (@EquipSet.Add Sample.equip_decl 2%nat (-1) Sample.equipment).2 true
  = [2; 5; 2; 2]%nat.
Proof.
  destruct (@Add_negative_fills_all Sample.equip_decl 2%nat (-1) Sample.equipment)
    as [Hret Heq].
  - reflexivity.
  - discriminate.
  - split; [exact Hret|exact Heq].
Defined.

Lemma Add_moves_counts_witness :
  @EquipSet.FreeSpace Sample.equip_decl
    (@EquipSet.Add Sample.equip_decl 2%nat 2 Sample.equipment).2 true = 1 /\
  @EquipSet.Count Sample.equip_decl
    (@EquipSet.Add Sample.equip_decl 2%nat 2 Sample.equipment).2 true 2%nat = 2.
Proof.
  destruct (@Add_moves_counts Sample.equip_decl 2%nat 2 Sample.equipment)
    as (Hfree & Hcount & _).
  - discriminate.
  - split; discriminate.
  - discriminate.
  - split; [exact Hfree|exact Hcount].
Defined.

Lemma Remove_undoes_Add_witness :
  EquipSet.equip
    (@EquipSet.Remove Sample.equip_decl 2%nat 2
       (@EquipSet.Add Sample.equip_decl 2%nat 2 Sample.equipment).2).2 true
  = EquipSet.equip Sample.equipment true.
Proof.
  destruct (@Remove_undoes_Add Sample.equip_decl 2%nat 2 Sample.equipment)
    as [_ Hback].
  - discriminate.
  - split; discriminate.
  - discriminate.
  - reflexivity.
  - exact (Hback true).
Defined.

Lemma Set_at_then_Get_at_witness :
  exists es', @EquipSet.Set_at Sample.equip_decl true 1%nat 7%nat Sample.equipment
              = Some es' /\
              @EquipSet.Get_at Sample.equip_decl es' true 1%nat = Some 7%nat.
Proof.
  destruct (@Set_at_then_Get_at Sample.equip_decl true 1%nat 7%nat Sample.equipment)
    as (es' & Hset & Hget & _).
  - simpl. lia.
  - exists es'. split; assumption.
Defined.

Lemma OnDelete_idempotent_witness :
  exists w1, OnDelete 1%nat Sample.world1 = Some w1 /\
             OnDelete 1%nat w1 = Some w1.
Proof.
  destruct (OnDelete_idempotent 1%nat Sample.world1 _ eq_refl)
    as (w1 & H1 & _ & H2).
  exists w1. split; assumption.
Defined.

Lemma emit_detaches_all_witness :
  exists w', emit_onDelete 10%nat Sample.world1 = Some w' /\ WF w' /\
             detached 1%nat w'.
Proof.
  destruct (emit_detaches_all 10%nat Sample.world1 _ world1_WF eq_refl)
    as (w' & Hemit & Hwf & _ & Hdet & _).
  exists w'. split; [exact Hemit|]. split; [exact Hwf|].
  apply Hdet. eexists. split; reflexivity.
Defined.

Lemma GetDockedWith_makes_own_wrapper_witness :
  exists h' w', GetDockedWith 1%nat (Harbour.world false) = Some (Some h', w') /\
                h' <> 1%nat /\ attached_to h' 20%nat w' /\
                attached_to 1%nat 10%nat w'.
Proof.
  destruct (GetDockedWith_makes_own_wrapper 1%nat 10%nat (Harbour.world false)
              (Harbour.docked_ship [1%nat]) (harbour_WF false))
    as [_ Hdocked].
  - eexists. split; reflexivity.
  - reflexivity.
  - reflexivity.
  - destruct (Hdocked 20%nat Harbour.station eq_refl eq_refl)
      as (h' & w' & Hget & _ & Hne & Hst & Hship & _).
    exists h', w'. repeat split; assumption.
Defined.

Lemma SetMoney_then_GetMoney_witness :
  exists w', SetMoney 1%nat (Double.of_Z 5) Sample.world1 = Some w' /\
             GetMoney 1%nat w' = Some (Double.mul Double.lit_0_01 (Double.of_Z 500)).
Proof.
  destruct (SetMoney_then_GetMoney 1%nat 10%nat (Double.of_Z 5) 500 Sample.world1
              (Sample.ship [1%nat]))
    as (w' & Hset & Hget & _).
  - eexists. split; reflexivity.
  - reflexivity.
  - reflexivity.
  - reflexivity.
  - exists w'. split; assumption.
Defined.

Lemma entry_points_keep_WF_witness :
  WF (set_objects (<[10%nat := SetMoney_obj 500 (Sample.ship [1%nat])]>
                     (objects Sample.world1)) Sample.world1).
Proof.
  destruct (entry_points_keep_WF Sample.world1 world1_WF)
    as (_ & _ & _ & _ & _ & Hmoney & _).
  apply (Hmoney 1%nat (Double.of_Z 5)). reflexivity.
Defined.

Lemma GetPlayer_wraps_player_witness :
  exists h w', GetPlayer Sample.world1
               = Some (Returns [LUserdata (UObjectWrapper h)], w') /\
               wrappers Sample.world1 !! h = None /\
               attached_to h 10%nat w'.
Proof.
  destruct (GetPlayer_wraps_player 10%nat Sample.world1 _ eq_refl eq_refl)
    as (h & w' & Hget & Hnew & Hatt & _).
  exists h, w'. repeat split; assumption.
Defined.

Lemma unserialize_twice_distinct_witness :
  exists h1 w1 h2 w2,
    UserDataUnserialize (tag_ObjectWrapper ++ "0" ++ CStr.nl) Sample.world1
      = Some (Returns [LUserdata (UObjectWrapper h1)], w1) /\
    UserDataUnserialize (tag_ObjectWrapper ++ "0" ++ CStr.nl) w1
      = Some (Returns [LUserdata (UObjectWrapper h2)], w2) /\
    h1 <> h2 /\ attached_to h1 10%nat w2 /\ attached_to h2 10%nat w2.
Proof.
  destruct (unserialize_twice_distinct ("0" ++ CStr.nl) 10%nat Sample.world1 _
              eq_refl eq_refl)
    as (h1 & w1 & h2 & w2 & H1 & H2 & Hne & _ & _ & Ha1 & Ha2 & _).
  exists h1, w1, h2, w2. repeat split; assumption.
Defined.

Lemma unserialize_without_number_reads_zero_witness :
  UserDataUnserialize (tag_ObjectWrapper ++ "abc") Sample.world1
  = UserDataUnserialize (tag_ObjectWrapper ++ "0") Sample.world1.
Proof.
  apply (unserialize_without_number_reads_zero "abc" Sample.world1).
  right. exists "a"%char, "bc".
  split; [reflexivity|]. split; [reflexivity|]. split; [reflexivity|].
  split; discriminate.
Defined.

(** With the sample compiler the first draw becomes the z coordinate and
    the third the x coordinate. *)
Example draw3_on_sample :
  draw3 0%nat = (Vec3 Double.lit_0_01 Double.zero Double.lit_m1, 3%nat).
Proof. reflexivity. Qed.



